(** * Verification of the CCCD card rectification and field extraction stages

    Shallow embedding of [src/stages/crop.py] and [src/stages/ocr.py].
    Floating-point coordinates and confidences are modelled by exact
    rationals [Q]; integer pixel coordinates (numpy [int32] arrays, image
    sizes) by [Z].  The residual deskew angle, which goes through
    [math.atan2], is modelled over the reals [R].  A Python [str] is
    modelled as a Rocq [string] whose characters are the code points
    0-255 (Latin-1); the character classes below ([str.lower],
    [str.isspace], [str.isalpha], [str.isdigit]) are Python's on that
    range, and text with code points above 255 is outside the model. *)

From Stdlib Require Import QArith Qround Qabs ZArith Lia List Ascii String Bool.
From Stdlib Require Import Sorting.Permutation Sorting.Sorted Lqa.
From Stdlib Require Import Reals Qreals.
Import ListNotations.
Open Scope string_scope.
Open Scope Q_scope.

(* ------------------------------------------------------------------ *)
(** ** Python numeric helpers *)

(** [min(a, b)]: returns [a] unless [b < a]. *)
Definition pymin (a b : Q) : Q := if Qle_bool a b then a else b.
(** [max(a, b)]: returns [a] unless [b > a]. *)
Definition pymax (a b : Q) : Q := if Qle_bool b a then a else b.

(** [numpy.astype(int32)] on a non-negative value truncates, i.e. floors. *)
Definition to_int32 (q : Q) : Z := Qfloor q.

(* ------------------------------------------------------------------ *)
(** ** [clamp_bbox] and [pad_bbox] (src/stages/ocr.py) *)

Record qbox := QBox { qx1 : Q; qy1 : Q; qx2 : Q; qy2 : Q }.
Record zbox := ZBox { zx1 : Z; zy1 : Z; zx2 : Z; zy2 : Z }.

(** [clamp_bbox(xyxy, width, height)]. *)
Definition clamp_bbox (b : qbox) (width height : Z) : zbox :=
  let wm1 := inject_Z (width - 1) in
  let hm1 := inject_Z (height - 1) in
  let x1 := pymax 0 (pymin (qx1 b) wm1) in
  let y1 := pymax 0 (pymin (qy1 b) hm1) in
  let x2 := pymax 0 (pymin (qx2 b) wm1) in
  let y2 := pymax 0 (pymin (qy2 b) hm1) in
  let x2 := if Qle_bool x2 x1 then pymin wm1 (x1 + 1) else x2 in
  let y2 := if Qle_bool y2 y1 then pymin hm1 (y1 + 1) else y2 in
  ZBox (to_int32 x1) (to_int32 y1) (to_int32 x2) (to_int32 y2).

(** Default [pad_ratio] of [pad_bbox]: 0.04. *)
Definition pad_ratio_default : Q := 1 # 25.

(** [pad_bbox(xyxy, width, height, pad_ratio)]. *)
Definition pad_bbox_r (b : qbox) (width height : Z) (pad_ratio : Q) : zbox :=
  let w := qx2 b - qx1 b in
  let h := qy2 b - qy1 b in
  let pad_w := w * pad_ratio in
  let pad_h := h * pad_ratio in
  clamp_bbox (QBox (qx1 b - pad_w) (qy1 b - pad_h) (qx2 b + pad_w) (qy2 b + pad_h))
    width height.

Definition pad_bbox (b : qbox) (width height : Z) : zbox :=
  pad_bbox_r b width height pad_ratio_default.

(* ------------------------------------------------------------------ *)
(** ** [_order_corners_robust] (src/stages/crop.py) *)

Definition point : Type := (Q * Q)%type.

Inductive result (A : Type) : Type :=
| Ok : A -> result A
| InvalidInputError : string -> result A.
Arguments Ok {A} _.
Arguments InvalidInputError {A} _.

(** [pts[np.argmin(f(pts))]]: the first point of minimal [f]. *)
Definition argmin_pt (f : point -> Q) (p : point) (ps : list point) : point :=
  fold_left (fun acc q => if Qle_bool (f acc) (f q) then acc else q) ps p.

(** [pts[np.argmax(f(pts))]]: the first point of maximal [f]. *)
Definition argmax_pt (f : point -> Q) (p : point) (ps : list point) : point :=
  fold_left (fun acc q => if Qle_bool (f q) (f acc) then acc else q) ps p.

(** [pts.sum(axis=1)] *)
Definition psum (p : point) : Q := fst p + snd p.
(** [np.diff(pts, axis=1)]: second column minus first, i.e. [y - x]. *)
Definition pdiff (p : point) : Q := snd p - fst p.

Definition _order_corners_robust (points : list point) : result (list point) :=
  match points with
  | [p0; p1; p2; p3] =>
      let ps := [p1; p2; p3] in
      let tl := argmin_pt psum p0 ps in
      let br := argmax_pt psum p0 ps in
      let tr := argmin_pt pdiff p0 ps in
      let bl := argmax_pt pdiff p0 ps in
      Ok [tl; tr; br; bl]
  | _ => InvalidInputError "points must contain exactly 4 elements"
  end.

(** The ordering as the spec words it: [d = x - y], top-right = argmin d,
    bottom-left = argmax d. *)
Definition order_corners_spec_words (points : list point) : result (list point) :=
  let d (p : point) := fst p - snd p in
  match points with
  | [p0; p1; p2; p3] =>
      let ps := [p1; p2; p3] in
      Ok [argmin_pt psum p0 ps; argmin_pt d p0 ps; argmax_pt psum p0 ps; argmax_pt d p0 ps]
  | _ => InvalidInputError "points must contain exactly 4 elements"
  end.

(* ------------------------------------------------------------------ *)
(** ** Stable sorting (Python's [list.sort] / [sorted]) *)

(** Insert [x] after every element [y] with [before y x]; folding this
    over the input is a stable insertion sort. *)
Fixpoint insert_stable {A} (before : A -> A -> bool) (x : A) (l : list A) : list A :=
  match l with
  | [] => [x]
  | y :: l' => if before y x then y :: insert_stable before x l' else x :: l
  end.

Definition sort_stable {A} (before : A -> A -> bool) (l : list A) : list A :=
  fold_left (fun acc x => insert_stable before x acc) l [].

(** [sorted(l, key=k)]: ascending, stable. *)
Definition sort_by_key {A} (k : A -> Z) (l : list A) : list A :=
  sort_stable (fun y x => (k y <=? k x)%Z) l.

(** [l.sort(key=k, reverse=True)]: descending, stable. *)
Definition sort_by_key_desc {A} (k : A -> Q) (l : list A) : list A :=
  sort_stable (fun y x => Qle_bool (k x) (k y)) l.

(* ------------------------------------------------------------------ *)
(** ** Labels *)

(** [str.lower()] on one character: [A-Z], [\xc0-\xd6] and [\xd8-\xde]
    map to the character 32 places further. *)
Definition py_lower (c : Ascii.ascii) : Ascii.ascii :=
  let n := Ascii.nat_of_ascii c in
  if ((65 <=? n) && (n <=? 90) || (192 <=? n) && (n <=? 214) || (216 <=? n) && (n <=? 222))%nat
  then Ascii.ascii_of_nat (n + 32) else c.

Fixpoint str_map (f : Ascii.ascii -> Ascii.ascii) (s : string) : string :=
  match s with
  | EmptyString => EmptyString
  | String c s' => String (f c) (str_map f s')
  end.

(** [name.lower().replace(" ", "-").replace("_", "-")]. *)
Definition _normalize_label (name : string) : string :=
  str_map (fun c => if Ascii.eqb c " "%char || Ascii.eqb c "_"%char then "-"%char else c)
    (str_map py_lower name).

Fixpoint digits_of_nat (fuel n : nat) (acc : string) : string :=
  match fuel with
  | O => acc
  | S f =>
      let acc' := String (Ascii.ascii_of_nat (48 + n mod 10)) acc in
      if (n <? 10)%nat then acc' else digits_of_nat f (n / 10) acc'
  end.

(** [str(i)] for an integer class id. *)
Definition str_of_Z (z : Z) : string :=
  if (z <? 0)%Z then String "-" (digits_of_nat (S (Z.to_nat (- z))) (Z.to_nat (- z)) "")
  else digits_of_nat (S (Z.to_nat z)) (Z.to_nat z) "".

Definition corner_names : list string :=
  ["tren-trai"; "tren-phai"; "duoi-trai"; "duoi-phai";
   "top-left"; "top-right"; "bottom-left"; "bottom-right"].
Definition emblem_names : list string := ["quoc-huy"; "quoc_huy"; "huy-hieu"; "emblem"].

Definition mem_str (s : string) (l : list string) : bool := existsb (String.eqb s) l.

(* ------------------------------------------------------------------ *)
(** ** Detector output *)

(** One YOLO box: [box.conf], [box.xyxy], [box.cls]. *)
Record detection := Detection { det_conf : Q; det_xyxy : qbox; det_cls : Z }.

(** [class_id_to_name.get(cls_id, str(cls_id))] *)
Definition label_of (names : Z -> option string) (d : detection) : string :=
  match names (det_cls d) with Some n => n | None => str_of_Z (det_cls d) end.

(** [_center_of_box] *)
Definition _center_of_box (b : qbox) : point :=
  ((qx1 b + qx2 b) / 2, (qy1 b + qy2 b) / 2).

(** Loop state of [detect_points]: collected [(center, conf)] corners and
    the last emblem seen. *)
Definition detect_step (names : Z -> option string) (conf_thres : Q)
    (st : list (point * Q) * option point) (d : detection)
    : list (point * Q) * option point :=
  let (corners, emblem) := st in
  if negb (Qle_bool conf_thres (det_conf d)) then st   (* conf < conf_thres *)
  else
    let name := _normalize_label (label_of names d) in
    let center := _center_of_box (det_xyxy d) in
    if mem_str name corner_names then ((corners ++ [(center, det_conf d)])%list, emblem)
    else if mem_str name emblem_names then (corners, Some center)
    else st.

(** [detect_points(model, image, device, conf_thres)], given the boxes
    [model.predict(image)[0].boxes] and [result.names]. *)
Definition detect_points (names : Z -> option string) (boxes : list detection)
    (conf_thres : Q) : option point * list point :=
  let (corners, emblem) := fold_left (detect_step names conf_thres) boxes ([], None) in
  let corners :=
    if (4 <? List.length corners)%nat
    then firstn 4 (sort_by_key_desc snd corners) else corners in
  (emblem, map fst corners).

(* ------------------------------------------------------------------ *)
(** ** Corner completion, quad inflation (src/stages/crop.py) *)

Definition pt_at (l : list point) (i : nat) : point := nth i l (0, 0).

(** Squared [np.hypot]: the code only compares these lengths, and [hypot]
    is monotone in the squared length. *)
Definition dist2 (p q : point) : Q :=
  (fst p - fst q) * (fst p - fst q) + (snd p - snd q) * (snd p - snd q).

(** [max(dists, key=lambda x: x[2])]: the first pair of maximal length. *)
Definition max_pair (d0 : nat * nat * Q) (ds : list (nat * nat * Q)) : nat * nat * Q :=
  fold_left (fun acc x => if Qle_bool (snd x) (snd acc) then acc else x) ds d0.

(** Lines 285-291 of [crop_cccd]: with exactly 3 corners, append
    [pts[i] + pts[j] - pts[k]] for the longest pair [(i, j)]. *)
Definition complete_fourth_corner (corners : list point) : list point :=
  if (List.length corners =? 3)%nat then
    let pts := corners in
    let dists := [(0, 1, dist2 (pt_at pts 0) (pt_at pts 1));
                  (0, 2, dist2 (pt_at pts 0) (pt_at pts 2));
                  (1, 2, dist2 (pt_at pts 1) (pt_at pts 2))]%nat in
    let '(i, j, _) := max_pair (hd (0%nat, 0%nat, 0) dists) (tl dists) in
    let k := hd 0%nat (filter (fun n => negb ((n =? i) || (n =? j)))%nat [0; 1; 2]%nat) in
    (corners ++ [(fst (pt_at pts i) + fst (pt_at pts j) - fst (pt_at pts k),
                  snd (pt_at pts i) + snd (pt_at pts j) - snd (pt_at pts k))])%list
  else corners.

(** [np.clip(v, lo, hi)] *)
Definition clip (v lo hi : Q) : Q := pymin (pymax v lo) hi.

(** [_inflate_quad(points, expand, image_shape)], [image_shape[:2] = (h, w)]. *)
Definition _inflate_quad (points : list point) (expand : Q) (h w : Z) : list point :=
  if Qle_bool expand 0 then points
  else
    let cx := fold_left Qplus (map fst points) 0 / 4 in
    let cy := fold_left Qplus (map snd points) 0 / 4 in
    let scale := 1 + expand in
    map (fun p =>
           (clip (cx + (fst p - cx) * scale) 0 (inject_Z (w - 1)),
            clip (cy + (snd p - cy) * scale) 0 (inject_Z (h - 1)))) points.

(* ------------------------------------------------------------------ *)
(** ** Real-valued helpers: [math.atan2], [math.degrees], [round] *)

Definition atan2 (y x : R) : R :=
  if Rlt_dec 0 x then atan (y / x)
  else if Rlt_dec x 0 then
    (if Rle_dec 0 y then (atan (y / x) + PI)%R else (atan (y / x) - PI)%R)
  else if Rlt_dec 0 y then (PI / 2)%R
  else if Rlt_dec y 0 then (- (PI / 2))%R
  else 0%R.

Definition degrees (a : R) : R := (a * 180 / PI)%R.

(** [math.hypot] *)
Definition hypot (dx dy : R) : R := sqrt (dx * dx + dy * dy).

(** [int(round(r))]: round half to even. *)
Definition py_round (r : R) : Z :=
  let f := (up r - 1)%Z in
  let frac := (r - IZR f)%R in
  if Rlt_dec frac (1 / 2) then f
  else if Rlt_dec (1 / 2) frac then (f + 1)%Z
  else if Z.even f then f else (f + 1)%Z.

Definition Q2Rpt (p : point) : R * R := (Q2R (fst p), Q2R (snd p)).

(* ------------------------------------------------------------------ *)
(** ** Image capabilities used by [crop_cccd] *)

Inductive rotate_code := ROTATE_90_CLOCKWISE | ROTATE_180 | ROTATE_90_COUNTERCLOCKWISE.

(** OpenCV, numpy and filesystem operations used by the rectification
    stage; an image is known through its [shape[:2] = (h, w)]. *)
Record crop_env := {
  img : Type;
  mat : Type;
  img_shape : img -> Z * Z;
  path_exists : string -> bool;
  imread : string -> option img;
  yolo_available : bool;
  yolo_boxes : img -> list detection;
  class_names : Z -> option string;
  getPerspectiveTransform : list point -> list point -> mat;
  warpPerspective : img -> mat -> Z * Z -> img;
  perspectiveTransform : mat -> point -> point;
  rotate : rotate_code -> img -> img;
  rotate_about : img -> Z * Z -> R -> img;
  copyMakeBorder : img -> Z -> Z -> Z -> Z -> img;
  (** [cv2.imwrite(path, image)]: [Some ok] for the returned flag, [None]
      when it raises [cv2.error] (no writer for the path's extension). *)
  imwrite : string -> img -> option bool;
  cropped_name : string -> string
}.

(** [int(round(q))] on a float value: round half to even. *)
Definition py_round_Q (q : Q) : Z :=
  let f := Qfloor q in
  let frac := q - inject_Z f in
  if negb (Qle_bool (1 # 2) frac) then f
  else if negb (Qle_bool frac (1 # 2)) then (f + 1)%Z
  else if Z.even f then f else (f + 1)%Z.

(** [CvError] is OpenCV's [cv2.error]. *)
Inductive crop_exc := RuntimeError | FileNotFoundError | ValueError | IOError | CvError.

(** What [crop_cccd] does: raise, or return a path or [None]. *)
Inductive crop_outcome :=
| Raised (e : crop_exc)
| Returned (r : option string).

Section Crop.
Variable E : crop_env.

(** [_compute_warp(image, [tl, tr, br, bl])] *)
Definition _compute_warp (image : img E) (tl tr br bl : point) : img E * mat E :=
  let '(tlx, tly) := Q2Rpt tl in let '(trx, try) := Q2Rpt tr in
  let '(brx, bry) := Q2Rpt br in let '(blx, bly) := Q2Rpt bl in
  let width_top := hypot (tlx - trx) (tly - try) in
  let width_bottom := hypot (blx - brx) (bly - bry) in
  let out_width := py_round ((width_top + width_bottom) / 2) in
  let height_left := hypot (tlx - blx) (tly - bly) in
  let height_right := hypot (trx - brx) (try - bry) in
  let out_height := py_round ((height_left + height_right) / 2) in
  let dst := [(0, 0); (inject_Z (out_width - 1), 0);
              (inject_Z (out_width - 1), inject_Z (out_height - 1));
              (0, inject_Z (out_height - 1))] in
  let matrix := getPerspectiveTransform E [tl; tr; br; bl] dst in
  (warpPerspective E image matrix (out_width, out_height), matrix).

(** The top-edge angle computed at lines 302-305 of [crop_cccd], from the
    rectangle [(0,0), (w-1,0), (w-1,h-1), (0,h-1)] of the warped image. *)
Definition deskew_angle (warped : img E) : R :=
  let '(h, w) := img_shape E warped in
  let tl := (0, 0)%Z in
  let tr := (w - 1, 0)%Z in
  let dx := (fst tr - fst tl)%Z in
  let dy := (snd tr - snd tl)%Z in
  degrees (atan2 (IZR dy) (IZR dx)).

(** Lines 300-312 of [crop_cccd]: the residual top-edge deskew. *)
Definition deskew_top_edge_step (warped : img E) : img E :=
  let '(h, w) := img_shape E warped in
  let angle := deskew_angle warped in
  if Rlt_dec (3 / 10) (Rabs angle)
  then rotate_about E warped (w / 2, h / 2)%Z angle
  else warped.

(** [quadrant(px, py, width, height)] of [_rotate_to_place_point_top_left]. *)
Definition quadrant (px py : Q) (width height : Z) : bool :=
  negb (Qle_bool (inject_Z width / 2) px) && negb (Qle_bool (inject_Z height / 2) py).

(** [_rotate_to_place_point_top_left(image, point_xy)] *)
Definition _rotate_to_place_point_top_left (image : img E) (point_xy : option point) : img E :=
  match point_xy with
  | None => image
  | Some (x, y) =>
      let '(h, w) := img_shape E image in
      if quadrant x y w h then image
      else if quadrant (inject_Z h - y) x h w then rotate E ROTATE_90_CLOCKWISE image
      else if quadrant (inject_Z w - x) (inject_Z h - y) w h then rotate E ROTATE_180 image
      else rotate E ROTATE_90_COUNTERCLOCKWISE image
  end.

(** [_pad_to_aspect(image, target_aspect)] *)
Definition _pad_to_aspect (image : img E) (target_aspect : option Q) : img E :=
  match target_aspect with
  | None => image
  | Some t =>
      if Qle_bool t 0 then image
      else
        let '(h, w) := img_shape E image in
        let cur := inject_Z w / inject_Z (Z.max h 1) in
        if negb (Qle_bool (1 # 1000) (Qabs (cur - t))) then image
        else if negb (Qle_bool t cur) then
          let new_w := py_round_Q (inject_Z h * t) in
          let pad_total := Z.max (new_w - w) 0 in
          let left := (pad_total / 2)%Z in
          copyMakeBorder E image 0 0 left (pad_total - left)
        else
          let new_h := py_round_Q (inject_Z w / t) in
          let pad_total := Z.max (new_h - h) 0 in
          let top := (pad_total / 2)%Z in
          copyMakeBorder E image top (pad_total - top) 0 0
  end.

(** [crop_cccd(image_path, output_path, model_path, device, conf_thres,
    deskew, expand, aspect)]: the outcome, and the image written to disk
    (if any).  The [deskew] flag is not read by the code. *)
Definition crop_cccd (image_path : string) (output_path : option string)
    (conf_thres : Q) (deskew : bool) (expand : Q) (aspect : option Q)
    : crop_outcome * option (string * img E) :=
  if negb (yolo_available E) then (Raised RuntimeError, None)
  else if negb (path_exists E image_path) then (Raised FileNotFoundError, None)
  else
  match imread E image_path with
  | None => (Raised ValueError, None)
  | Some image =>
      let '(emblem, corners) :=
        detect_points (class_names E) (yolo_boxes E image) conf_thres in
      if (List.length corners <? 3)%nat then (Returned None, None)
      else
      let corners := complete_fourth_corner corners in
      match _order_corners_robust corners with
      | InvalidInputError _ => (Raised ValueError, None)
      | Ok ordered =>
          let '(h, w) := img_shape E image in
          match _inflate_quad ordered expand h w with
          | [tl; tr; br; bl] =>
              let '(warped, M) := _compute_warp image tl tr br bl in
              let warped := deskew_top_edge_step warped in
              let warped :=
                match emblem with
                | Some e => _rotate_to_place_point_top_left warped
                              (Some (perspectiveTransform E M e))
                | None => warped
                end in
              let warped := _pad_to_aspect warped aspect in
              let out := match output_path with
                         | Some p => p | None => cropped_name E image_path end in
              match imwrite E out warped with
              | Some true => (Returned (Some out), Some (out, warped))
              | Some false => (Raised IOError, None)
              | None => (Raised CvError, None)
              end
          | _ => (Raised ValueError, None)
          end
      end
  end.

End Crop.

(* ------------------------------------------------------------------ *)
(** ** Field extraction: [run] (src/stages/ocr.py) *)

Definition DESIRED_FIELDS : list string :=
  ["id"; "name"; "dob"; "gender"; "nationality"; "origin_place";
   "current_place"; "expire_date"; "issue_date"].

Definition MULTILINE_FIELDS : list string := ["name"; "origin_place"; "current_place"].

(** A Python [dict] with string keys, in insertion order. *)
Definition dict (V : Type) : Type := list (string * V).

Fixpoint dget {V} (d : dict V) (k : string) : option V :=
  match d with
  | [] => None
  | (k', v) :: r => if String.eqb k' k then Some v else dget r k
  end.

(** [d.get(k, default)] *)
Definition dget_or {V} (d : dict V) (k : string) (default : V) : V :=
  match dget d k with Some v => v | None => default end.

(** [d[k] = v]: updated in place if present, appended otherwise. *)
Fixpoint dset {V} (d : dict V) (k : string) (v : V) : dict V :=
  match d with
  | [] => [(k, v)]
  | (k', v') :: r => if String.eqb k' k then (k', v) :: r else (k', v') :: dset r k v
  end.

(** [d.setdefault(k, v)] *)
Definition setdefault {V} (d : dict V) (k : string) (v : V) : dict V :=
  match dget d k with Some _ => d | None => dset d k v end.

(** Python string values: [None] or a string; [if text:] is truthiness. *)
Definition truthy (t : option string) : bool :=
  match t with Some (String _ _) => true | _ => false end.

(** [c.isspace()]: [\t-\r], [\x1c-\x1f], space, [\x85] and [\xa0]. *)
Definition is_space (c : Ascii.ascii) : bool :=
  let n := Ascii.nat_of_ascii c in
  ((9 <=? n) && (n <=? 13) || (28 <=? n) && (n <=? 32) || (n =? 133) || (n =? 160))%nat.
(** [c.isdigit()]: [0-9] and the superscripts [\xb2], [\xb3], [\xb9]. *)
Definition is_digit (c : Ascii.ascii) : bool :=
  let n := Ascii.nat_of_ascii c in
  ((48 <=? n) && (n <=? 57) || (n =? 178) || (n =? 179) || (n =? 185))%nat.
(** [c.isalpha()]: [A-Z], [a-z], [\xaa], [\xb5], [\xba], [\xc0-\xd6],
    [\xd8-\xf6] and [\xf8-\xff]. *)
Definition is_alpha (c : Ascii.ascii) : bool :=
  let n := Ascii.nat_of_ascii c in
  ((65 <=? n) && (n <=? 90) || (97 <=? n) && (n <=? 122) || (n =? 170) || (n =? 181) ||
   (n =? 186) || (192 <=? n) && (n <=? 214) || (216 <=? n) && (n <=? 246) || (248 <=? n))%nat.

Fixpoint str_exists (f : Ascii.ascii -> bool) (s : string) : bool :=
  match s with EmptyString => false | String c s' => f c || str_exists f s' end.

Fixpoint str_count (c : Ascii.ascii) (s : string) : nat :=
  match s with
  | EmptyString => 0
  | String c' s' => (if Ascii.eqb c c' then 1 else 0) + str_count c s'
  end.

Fixpoint lstrip (s : string) : string :=
  match s with
  | String c s' => if is_space c then lstrip s' else s
  | EmptyString => EmptyString
  end.

Definition rev_str (s : string) : string := string_of_list_ascii (rev (list_ascii_of_string s)).

(** [s.strip()]: whitespace as [is_space]. *)
Definition strip (s : string) : string := rev_str (lstrip (rev_str (lstrip s))).

(** [estimate_confidence(text)] *)
Definition estimate_confidence (text : option string) : Q :=
  match text with
  | None => 0
  | Some t =>
      if (String.length (strip t) =? 0)%nat then 0
      else
        let n := String.length t in
        let spaces := str_count " " t in
        let c := 1 # 2 in
        let c := if str_exists is_digit t then c + (1 # 10) else c in
        let c := if str_exists is_alpha t then c + (1 # 10) else c in
        let c := if (3 <? n)%nat then c + (1 # 10) else c in
        let c := if negb (existsb (fun ch => str_exists (Ascii.eqb ch) t)
                               ["?"; "!"; "@"; "#"; "$"; "%"]%char)
                 then c + (1 # 10) else c in
        let c := if (spaces <=? n / 4)%nat then c + (1 # 10) else c in
        let c := if (0 <? str_count "?" t)%nat then c - (2 # 10) else c in
        let c := if (n <? 2)%nat then c - (2 # 10) else c in
        let c := if (n / 2 <? spaces)%nat then c - (1 # 10) else c in
        pymax 0 (pymin 1 c)
  end.

(** What [ocr.predict(image, return_prob=True)] does: raise, return a
    [(text, prob)] tuple, or return a bare value ([None] or a string). *)
Inductive predict_out :=
| PredRaises
| PredTuple (text : option string) (conf : Q)
| PredPlain (text : option string).

(** [predict_with_confidence(ocr, image)] *)
Definition predict_with_confidence (r : predict_out) : option string * Q :=
  match r with
  | PredRaises => (Some "", 0)
  | PredTuple t c => (t, c)
  | PredPlain t => (t, estimate_confidence t)
  end.

Record ocr_state := OcrState {
  field_to_bboxes : dict (list (zbox * Q));
  field_to_text : dict string;
  field_to_confidence : dict Q;
  field_to_ocr_confidence : dict Q
}.

Definition init_state : ocr_state :=
  OcrState (map (fun k => (k, [])) DESIRED_FIELDS) (map (fun k => (k, "")) DESIRED_FIELDS)
           (map (fun k => (k, 0)) DESIRED_FIELDS) (map (fun k => (k, 0)) DESIRED_FIELDS).

(** One iteration of the first loop of [run] over [result.boxes]. *)
Definition collect_step (names : Z -> option string) (width height : Z)
    (ocr_conf_threshold : Q) (st : ocr_state) (box : detection) : ocr_state :=
  let conf_score := det_conf box in
  let label := label_of names box in
  let st :=
    match dget (field_to_bboxes st) label with
    | Some _ => st
    | None =>
        OcrState (dset (field_to_bboxes st) label [])
                 (setdefault (field_to_text st) label "")
                 (setdefault (field_to_confidence st) label 0)
                 (setdefault (field_to_ocr_confidence st) label 0)
    end in
  if Qle_bool conf_score ocr_conf_threshold then st
  else
    let padded := pad_bbox (det_xyxy box) width height in
    let items := dget_or (field_to_bboxes st) label [] in
    if mem_str label MULTILINE_FIELDS then
      OcrState (dset (field_to_bboxes st) label (items ++ [(padded, conf_score)])%list)
               (field_to_text st) (field_to_confidence st) (field_to_ocr_confidence st)
    else
      let replace :=
        match items with
        | [] => true
        | (_, c0) :: _ => negb (Qle_bool conf_score c0)
        end in
      if replace then
        OcrState (dset (field_to_bboxes st) label [(padded, conf_score)])
                 (field_to_text st)
                 (dset (field_to_confidence st) label conf_score)
                 (field_to_ocr_confidence st)
      else st.

(** [" ".join(texts)] *)
Fixpoint join_space (l : list string) : string :=
  match l with
  | [] => ""
  | [t] => t
  | t :: l' => t ++ " " ++ join_space l'
  end.

(** [sum(l) / len(l)] *)
Definition mean (l : list Q) : Q := fold_left Qplus l 0 / inject_Z (Z.of_nat (List.length l)).

(** Whether preprocessing the crop of a padded box raises before
    [ocr.predict] is reached: a crop of height 0 divides by zero in
    [32 / crop_gray.height]; a crop of width 0 fails in Pillow, in
    [resize] to width 0 when the height is below 32 ([ValueError]) and
    otherwise in [ImageEnhance.Contrast], whose mean over no pixels
    divides by zero. *)
Definition crop_fails (bbox : zbox) : bool :=
  ((zy2 bbox - zy1 bbox =? 0) || (zx2 bbox - zx1 bbox =? 0))%Z.

(** The inner loop over the y-sorted boxes of one label: the kept
    [(texts, yolo_confidences, ocr_confidences)], or [None] when the
    preprocessing of a crop raises ([crop_fails]).
    [recognize] is the crop + grayscale + resize + contrast + [ocr.predict]
    pipeline applied to the padded box of the rectified image. *)
Definition recognize_boxes (recognize : zbox -> predict_out) (items : list (zbox * Q))
    : option (list string * list Q * list Q) :=
  fold_left
    (fun acc it =>
       match acc with
       | None => None
       | Some (texts, ycs, ocs) =>
           let '(bbox, conf_score) := it in
           if crop_fails bbox then None
           else
             let '(text, ocr_conf) := predict_with_confidence (recognize bbox) in
             match text with
             | Some t =>
                 if truthy text
                 then Some ((texts ++ [t])%list, (ycs ++ [conf_score])%list,
                            (ocs ++ [ocr_conf])%list)
                 else acc
             | None => acc
             end
       end)
    (sort_by_key (fun it => zy1 (fst it)) items) (Some ([], [], [])).

(** One iteration of the second loop of [run], for [(label, bbox_items)]. *)
Definition merge_step (recognize : zbox -> predict_out)
    (acc : option ocr_state) (entry : string * list (zbox * Q)) : option ocr_state :=
  match acc with
  | None => None
  | Some st =>
      let '(label, bbox_items) := entry in
      match bbox_items with
      | [] => Some st
      | _ =>
          match recognize_boxes recognize bbox_items with
          | None => None
          | Some (texts, ycs, ocs) =>
              let text := dset (field_to_text st) label (strip (join_space texts)) in
              if mem_str label MULTILINE_FIELDS && negb (List.length ycs =? 0)%nat then
                Some (OcrState (field_to_bboxes st) text
                        (dset (field_to_confidence st) label (mean ycs))
                        (dset (field_to_ocr_confidence st) label (mean ocs)))
              else if negb (List.length ycs =? 0)%nat then
                Some (OcrState (field_to_bboxes st) text (field_to_confidence st)
                        (dset (field_to_ocr_confidence st) label (hd 0 ocs)))
              else Some (OcrState (field_to_bboxes st) text (field_to_confidence st)
                           (field_to_ocr_confidence st))
          end
      end
  end.

(** [round(x, 3)]: round half to even at 3 decimals. *)
Definition round3 (x : Q) : Q := inject_Z (py_round_Q (x * 1000)) / 1000.

Record payload := Payload {
  data : dict string;
  yolo_confidence : dict Q;
  ocr_confidence : dict Q
}.

Definition make_payload (st : ocr_state) : payload :=
  Payload (map (fun k => (k, dget_or (field_to_text st) k "")) DESIRED_FIELDS)
          (map (fun k => (k, round3 (dget_or (field_to_confidence st) k 0))) DESIRED_FIELDS)
          (map (fun k => (k, round3 (dget_or (field_to_ocr_confidence st) k 0))) DESIRED_FIELDS).

(** The extraction state after both loops of [run]. *)
Definition run_state (names : Z -> option string) (boxes : list detection)
    (width height : Z) (ocr_conf_threshold : Q) (recognize : zbox -> predict_out)
    : option ocr_state :=
  let st := fold_left (collect_step names width height ocr_conf_threshold) boxes init_state in
  fold_left (merge_step recognize) (field_to_bboxes st) (Some st).

(** [run(...)]: the payload written to [output_json], or [None] if the
    extraction raised. *)
Definition run (names : Z -> option string) (boxes : list detection)
    (width height : Z) (ocr_conf_threshold : Q) (recognize : zbox -> predict_out)
    : option payload :=
  option_map make_payload (run_state names boxes width height ocr_conf_threshold recognize).

(** Per retained box: whether its recognized text is non-empty, the text,
    and the recognition confidence, as [predict_with_confidence] gives them. *)
Definition kept (recognize : zbox -> predict_out) (it : zbox * Q) : bool :=
  truthy (fst (predict_with_confidence (recognize (fst it)))).
Definition text_of (recognize : zbox -> predict_out) (it : zbox * Q) : string :=
  match fst (predict_with_confidence (recognize (fst it))) with Some t => t | None => "" end.
Definition ocr_of (recognize : zbox -> predict_out) (it : zbox * Q) : Q :=
  snd (predict_with_confidence (recognize (fst it))).

(** The effect of the second loop of [run] on the entry of label [L]
    with boxes [items], whose recognition gave [res]. *)
Definition merge_effect (L : string) (items : list (zbox * Q))
    (res : list string * list Q * list Q) (st st' : ocr_state) : Prop :=
  let '(texts, ycs, ocs) := res in
  dget (field_to_text st') L =
    (match items with [] => dget (field_to_text st) L
                 | _ => Some (strip (join_space texts)) end) /\
  dget (field_to_confidence st') L =
    (match items, ycs with
     | _ :: _, _ :: _ => if mem_str L MULTILINE_FIELDS then Some (mean ycs)
                         else dget (field_to_confidence st) L
     | _, _ => dget (field_to_confidence st) L end) /\
  dget (field_to_ocr_confidence st') L =
    (match items, ycs with
     | _ :: _, _ :: _ => if mem_str L MULTILINE_FIELDS then Some (mean ocs)
                         else Some (hd 0 ocs)
     | _, _ => dget (field_to_ocr_confidence st) L end).

Definition same_at (L : string) (st st' : ocr_state) : Prop :=
  dget (field_to_text st') L = dget (field_to_text st) L /\
  dget (field_to_confidence st') L = dget (field_to_confidence st) L /\
  dget (field_to_ocr_confidence st') L = dget (field_to_ocr_confidence st) L.

(** A small concrete instance of the capabilities: an image is its
    [(h, w)] shape, rotations by 90 degrees swap it, borders add to it. *)
Definition toy_env : crop_env := {|
  img := (Z * Z)%type;
  mat := unit;
  img_shape := fun i => i;
  path_exists := fun _ => true;
  imread := fun _ => Some (50, 80)%Z;
  yolo_available := true;
  yolo_boxes := fun _ => [Detection (9 # 10) (QBox 0 0 4 4) 0;
                          Detection (8 # 10) (QBox 76 0 80 4) 1];
  class_names := fun c => if (c =? 0)%Z then Some "top-left"
                          else if (c =? 1)%Z then Some "top-right" else None;
  getPerspectiveTransform := fun _ _ => tt;
  warpPerspective := fun _ _ d => (snd d, fst d);
  perspectiveTransform := fun _ p => p;
  rotate := fun c i => match c with ROTATE_180 => i | _ => (snd i, fst i) end;
  rotate_about := fun i _ _ => i;
  copyMakeBorder := fun i t b l r => (fst i + t + b, snd i + l + r)%Z;
  imwrite := fun _ _ => Some true;
  cropped_name := fun s => (s ++ "_cropped")%string
|}.

(** Corner detections of [boxes] passing [conf >= conf_thres]. *)
Definition count_passing_corners (names : Z -> option string) (boxes : list detection)
    (conf_thres : Q) : nat :=
  List.length (filter (fun d => Qle_bool conf_thres (det_conf d) &&
                                mem_str (_normalize_label (label_of names d)) corner_names)
                 boxes).

(** Boxes retained for label [L]: its detections above the threshold, in
    detection order, with their padded boxes. *)
Definition retained (names : Z -> option string) (boxes : list detection)
    (width height : Z) (thr : Q) (L : string) : list (zbox * Q) :=
  map (fun d => (pad_bbox (det_xyxy d) width height, det_conf d))
      (filter (fun d => String.eqb (label_of names d) L && negb (Qle_bool (det_conf d) thr))
              boxes).

(** The body of the inner loop of [run], as folded by [recognize_boxes]. *)
Definition recognize_step (r : zbox -> predict_out)
    (acc : option (list string * list Q * list Q)) (it : zbox * Q)
    : option (list string * list Q * list Q) :=
  match acc with
  | None => None
  | Some (texts, ycs, ocs) =>
      let '(bbox, conf_score) := it in
      if crop_fails bbox then None
      else
        let '(text, ocr_conf) := predict_with_confidence (r bbox) in
        match text with
        | Some t =>
            if truthy text
            then Some ((texts ++ [t])%list, (ycs ++ [conf_score])%list, (ocs ++ [ocr_conf])%list)
            else acc
        | None => acc
        end
  end.

(** [box == other] on padded boxes, used to single out one box. *)
Definition zbox_eqb (a b : zbox) : bool :=
  (zx1 a =? zx1 b)%Z && (zy1 a =? zy1 b)%Z && (zx2 a =? zx2 b)%Z && (zy2 a =? zy2 b)%Z.

(* ------------------------------------------------------------------ *)
(** ** Concrete extraction inputs *)

(** A field model with class 0 = ["name"] and class 5 = an out-of-schema
    label ["extra"]. *)
Definition ex_names (c : Z) : option string :=
  if (c =? 0)%Z then Some "name" else if (c =? 5)%Z then Some "extra" else None.

(** A 40x20 detection with top-left corner [(x, y)]; on a 200x100 image
    its padded box starts at [(floor (x - 1.6), floor (y - 0.8))]. *)
Definition ex_box (x y conf : Q) (cls : Z) : detection :=
  Detection conf (QBox x y (x + 40) (y + 20)) cls.

(** A recognizer answering by the top-left corner of the padded crop. *)
Definition ex_ocr (tbl : list (Z * Z * predict_out)) (b : zbox) : predict_out :=
  match find (fun e => (fst (fst e) =? zx1 b)%Z && (snd (fst e) =? zy1 b)%Z) tbl with
  | Some (_, out) => out
  | None => PredPlain None
  end.

(** The order of [sorted(l, key=key)]. *)
Definition key_le {A} (key : A -> Z) (a b : A) : Prop := (key a <= key b)%Z.

(** A stand-in environment whose model finds three corners. *)
Definition toy_env3 : crop_env := {|
  img := (Z * Z)%type;
  mat := unit;
  img_shape := fun i => i;
  path_exists := fun _ => true;
  imread := fun _ => Some (50, 80)%Z;
  yolo_available := true;
  yolo_boxes := fun _ => [Detection (9 # 10) (QBox 0 0 4 4) 0;
                          Detection (8 # 10) (QBox 76 0 80 4) 1;
                          Detection (7 # 10) (QBox 76 46 80 50) 2];
  class_names := fun c => if (c =? 0)%Z then Some "top-left"
                          else if (c =? 1)%Z then Some "top-right"
                          else if (c =? 2)%Z then Some "bottom_right" else None;
  getPerspectiveTransform := fun _ _ => tt;
  warpPerspective := fun _ _ d => (snd d, fst d);
  perspectiveTransform := fun _ p => p;
  rotate := fun c i => match c with ROTATE_180 => i | _ => (snd i, fst i) end;
  rotate_about := fun i _ _ => i;
  copyMakeBorder := fun i t b l r => (fst i + t + b, snd i + l + r)%Z;
  imwrite := fun _ _ => Some true;
  cropped_name := fun s => (s ++ "_cropped")%string
|}.

(** One character of [_normalize_label]: lower-cased, then space and
    underscore replaced by a dash. *)
Definition normalize_char (c : Ascii.ascii) : Ascii.ascii :=
  if Ascii.eqb (py_lower c) " "%char || Ascii.eqb (py_lower c) "_"%char
  then "-"%char else py_lower c.

(* ================================================================== *)
(** * Theorems *)

(** ** Box padding and clamping *)

Lemma pymin_le_r a b : pymin a b <= b.
Proof.
  unfold pymin. destruct (Qle_bool a b) eqn:E.
  - now apply Qle_bool_iff. 
  - apply Qle_refl.
Qed.

Lemma pymin_le_l a b : pymin a b <= a.
Proof.
  unfold pymin. destruct (Qle_bool a b) eqn:E.
  - apply Qle_refl.
  - apply Qlt_le_weak, Qnot_le_lt. intro H. apply Qle_bool_iff in H. congruence.
Qed.

Lemma pymax_ge_l a b : a <= pymax a b.
Proof.
  unfold pymax. destruct (Qle_bool b a) eqn:E.
  - apply Qle_refl.
  - apply Qlt_le_weak, Qnot_le_lt. intro H. apply Qle_bool_iff in H. congruence.
Qed.

(** Clamping into [[0, m]] with [max(0, min(v, m))] stays in [[0, m]]. *)
Lemma clamp_coord_range v m : 0 <= m -> 0 <= pymax 0 (pymin v m) <= m.
Proof.
  intros Hm. split.
  - apply pymax_ge_l.
  - unfold pymax. destruct (Qle_bool (pymin v m) 0) eqn:E.
    + exact Hm.
    + apply pymin_le_r.
Qed.

(** The 1px guard never moves [x2] below [x1] nor past the bound. *)
Lemma guard_coord_range x1 x2 m :
  0 <= x1 <= m -> 0 <= x2 <= m ->
  x1 <= (if Qle_bool x2 x1 then pymin m (x1 + 1) else x2) <= m.
Proof.
  intros [H1 H2] [H3 H4]. destruct (Qle_bool x2 x1) eqn:E.
  - split; [| apply pymin_le_l].
    unfold pymin. destruct (Qle_bool m (x1 + 1)); [exact H2|].
    apply Qle_trans with (x1 + 0); [rewrite Qplus_0_r; apply Qle_refl|].
    apply Qplus_le_r. discriminate.
  - split; [| exact H4].
    apply Qlt_le_weak, Qnot_le_lt. intro H. apply Qle_bool_iff in H. congruence.
Qed.

Lemma floor_range lo v m :
  inject_Z lo <= v -> v <= m -> inject_Z lo <= m -> (lo <= Qfloor v <= Qfloor m)%Z.
Proof.
  intros H1 H2 _. split.
  - rewrite <- (Qfloor_Z lo). now apply Qfloor_resp_le.
  - now apply Qfloor_resp_le.
Qed.

(** One axis of [clamp_bbox]: both ends land in [[0, m]], in order. *)
Lemma clamp_axis_range v1 v2 m : 0 <= m ->
  let a := pymax 0 (pymin v1 m) in
  let c := pymax 0 (pymin v2 m) in
  let c' := if Qle_bool c a then pymin m (a + 1) else c in
  (0 <= to_int32 a /\ to_int32 a <= to_int32 c' /\ to_int32 c' <= Qfloor m)%Z.
Proof.
  intros Hm a c c'.
  destruct (clamp_coord_range v1 m Hm) as [Ha1 Ha2].
  destruct (clamp_coord_range v2 m Hm) as [Hc1 Hc2].
  destruct (guard_coord_range a c m (conj Ha1 Ha2) (conj Hc1 Hc2)) as [Hg1 Hg2].
  fold c' in Hg1, Hg2. unfold to_int32.
  split; [| split].
  - rewrite <- (Qfloor_Z 0). now apply Qfloor_resp_le.
  - now apply Qfloor_resp_le.
  - now apply Qfloor_resp_le.
Qed.

Lemma clamp_bbox_range b width height :
  (1 <= width)%Z -> (1 <= height)%Z ->
  let r := clamp_bbox b width height in
  (0 <= zx1 r /\ zx1 r <= zx2 r /\ zx2 r <= width - 1)%Z /\
  (0 <= zy1 r /\ zy1 r <= zy2 r /\ zy2 r <= height - 1)%Z.
Proof.
  intros Hw Hh r.
  assert (Hw' : 0 <= inject_Z (width - 1)).
  { rewrite <- (Qfloor_Z 0) at 1. unfold Qle; simpl; lia. }
  assert (Hh' : 0 <= inject_Z (height - 1)).
  { unfold Qle; simpl; lia. }
  pose proof (clamp_axis_range (qx1 b) (qx2 b) _ Hw') as HX.
  pose proof (clamp_axis_range (qy1 b) (qy2 b) _ Hh') as HY.
  rewrite Qfloor_Z in HX, HY.
  exact (conj HX HY).
Qed.

(** C1 (counterexample).  A box lying right of a 100x100 image is clamped
    onto the last column: [x1 = 99] and the 1px guard
    [min(width - 1, x1 + 1)] gives back [x2 = 99], so [x2 > x1] fails. *)
Lemma pad_and_clamp_box_edge_collapse :
  ~ (forall b width height, (1 <= width)%Z -> (1 <= height)%Z ->
       (zx1 (pad_bbox b width height) < zx2 (pad_bbox b width height))%Z /\
       (zy1 (pad_bbox b width height) < zy2 (pad_bbox b width height))%Z).
Proof.
  intro H.
  destruct (H (QBox 110 10 120 20) 100%Z 100%Z ltac:(lia) ltac:(lia)) as [Hx _].
  vm_compute in Hx. discriminate.
Qed.

(** The box of the counterexample, evaluated: [(99, 9, 99, 20)]. *)
Example pad_bbox_right_of_image :
  pad_bbox (QBox 110 10 120 20) 100%Z 100%Z = ZBox 99 9 99 20.
Proof. vm_compute. reflexivity. Qed.

(** C1 (amended).  For image bounds with [width >= 1] and [height >= 1],
    [pad_bbox] (padding then [clamp_bbox]) returns a box inside
    [[0, width-1] x [0, height-1]] with [x1 <= x2] and [y1 <= y2]; the
    1px minimum span is capped at the last column/row, so a box clamped
    onto the right or bottom edge may come back with [x2 = x1]
    (resp. [y2 = y1]). *)
Theorem pad_and_clamp_box_ordered_in_bounds b width height :
  (1 <= width)%Z -> (1 <= height)%Z ->
  let r := pad_bbox b width height in
  (0 <= zx1 r /\ zx1 r <= zx2 r /\ zx2 r <= width - 1)%Z /\
  (0 <= zy1 r /\ zy1 r <= zy2 r /\ zy2 r <= height - 1)%Z.
Proof.
  intros Hw Hh. unfold pad_bbox, pad_bbox_r. now apply clamp_bbox_range.
Qed.

Lemma pad_and_clamp_box_ordered_in_bounds_witness :
  (1 <= 100)%Z /\ (1 <= 100)%Z /\
  (let r := pad_bbox (QBox 110 10 120 20) 100%Z 100%Z in
   (0 <= zx1 r /\ zx1 r <= zx2 r /\ zx2 r <= 100 - 1)%Z /\
   (0 <= zy1 r /\ zy1 r <= zy2 r /\ zy2 r <= 100 - 1)%Z).
Proof.
  split; [lia | split; [lia |]].
  apply (pad_and_clamp_box_ordered_in_bounds (QBox 110 10 120 20) 100%Z 100%Z); lia.
Defined.

(** ** Corner ordering *)

Lemma argmin_pt_spec f p ps :
  In (argmin_pt f p ps) (p :: ps) /\
  forall q, In q (p :: ps) -> f (argmin_pt f p ps) <= f q.
Proof.
  revert p. induction ps as [| a ps IH]; intros p; simpl.
  - split; [now left |]. intros q [<- | []]. apply Qle_refl.
  - set (acc := if Qle_bool (f p) (f a) then p else a).
    assert (Hacc : (acc = p \/ acc = a) /\ f acc <= f p /\ f acc <= f a).
    { unfold acc. destruct (Qle_bool (f p) (f a)) eqn:E.
      - apply Qle_bool_iff in E. split; [now left | split; [apply Qle_refl | exact E]].
      - assert (f a < f p) by (apply Qnot_le_lt; intro H; apply Qle_bool_iff in H; congruence).
        split; [now right | split; [now apply Qlt_le_weak | apply Qle_refl]]. }
    destruct (IH acc) as [Hin Hmin]. destruct Hacc as [Heq [Hp Ha]].
    split.
    + destruct Hin as [Hin | Hin].
      * destruct Heq as [Heq | Heq]; rewrite <- Hin, Heq; simpl; auto.
      * simpl; auto.
    + intros q [Hq | [Hq | Hq]].
      * subst q. eapply Qle_trans; [apply Hmin; now left | exact Hp].
      * subst q. eapply Qle_trans; [apply Hmin; now left | exact Ha].
      * apply Hmin. now right.
Qed.

Lemma argmax_pt_spec f p ps :
  In (argmax_pt f p ps) (p :: ps) /\
  forall q, In q (p :: ps) -> f q <= f (argmax_pt f p ps).
Proof.
  revert p. induction ps as [| a ps IH]; intros p; simpl.
  - split; [now left |]. intros q [<- | []]. apply Qle_refl.
  - set (acc := if Qle_bool (f a) (f p) then p else a).
    assert (Hacc : (acc = p \/ acc = a) /\ f p <= f acc /\ f a <= f acc).
    { unfold acc. destruct (Qle_bool (f a) (f p)) eqn:E.
      - apply Qle_bool_iff in E. split; [now left | split; [apply Qle_refl | exact E]].
      - assert (f p < f a) by (apply Qnot_le_lt; intro H; apply Qle_bool_iff in H; congruence).
        split; [now right | split; [now apply Qlt_le_weak | apply Qle_refl]]. }
    destruct (IH acc) as [Hin Hmax]. destruct Hacc as [Heq [Hp Ha]].
    split.
    + destruct Hin as [Hin | Hin].
      * destruct Heq as [Heq | Heq]; rewrite <- Hin, Heq; simpl; auto.
      * simpl; auto.
    + intros q [Hq | [Hq | Hq]].
      * subst q. eapply Qle_trans; [exact Hp | apply Hmax; now left].
      * subst q. eapply Qle_trans; [exact Ha | apply Hmax; now left].
      * apply Hmax. now right.
Qed.

(** C2 (counterexample).  On the axis-aligned square
    [(0,0), (10,0), (10,10), (0,10)] the code returns top-right [(10,0)],
    while "top-right = argmin (x - y)" would pick [(0,10)]: [np.diff]
    along axis 1 computes [y - x], not [x - y]. *)
Lemma order_corners_not_argmin_x_minus_y :
  _order_corners_robust [(0,0); (10,0); (10,10); (0,10)] <>
  order_corners_spec_words [(0,0); (10,0); (10,10); (0,10)].
Proof. vm_compute. congruence. Qed.

Example order_corners_square :
  _order_corners_robust [(0,0); (10,0); (10,10); (0,10)] =
  Ok [(0,0); (10,0); (10,10); (0,10)].
Proof. reflexivity. Qed.

(** C2 (amended).  For a list of exactly 4 points, [_order_corners_robust]
    returns [[tl; tr; br; bl]], four of the input points, where [tl] has
    the minimum and [br] the maximum of [x + y], [tr] has the maximum and
    [bl] the minimum of [x - y] (i.e. [tr = argmin (y - x)]); for any other
    number of points it fails with an invalid-input error. *)
Theorem order_corners_sum_diff_extremes (points : list point) :
  (List.length points <> 4%nat ->
     exists msg, _order_corners_robust points = InvalidInputError msg) /\
  (List.length points = 4%nat ->
     exists tl tr br bl,
       _order_corners_robust points = Ok [tl; tr; br; bl] /\
       In tl points /\ In tr points /\ In br points /\ In bl points /\
       forall q, In q points ->
         psum tl <= psum q /\ psum q <= psum br /\
         fst q - snd q <= fst tr - snd tr /\ fst bl - snd bl <= fst q - snd q).
Proof.
  split.
  - intros Hlen. destruct points as [| p0 [| p1 [| p2 [| p3 [| p4 ps]]]]];
      try (eexists; reflexivity). simpl in Hlen. lia.
  - intros Hlen. destruct points as [| p0 [| p1 [| p2 [| p3 [| p4 ps]]]]];
      try (simpl in Hlen; lia).
    destruct (argmin_pt_spec psum p0 [p1; p2; p3]) as [I1 M1].
    destruct (argmax_pt_spec psum p0 [p1; p2; p3]) as [I2 M2].
    destruct (argmin_pt_spec pdiff p0 [p1; p2; p3]) as [I3 M3].
    destruct (argmax_pt_spec pdiff p0 [p1; p2; p3]) as [I4 M4].
    exists (argmin_pt psum p0 [p1; p2; p3]), (argmin_pt pdiff p0 [p1; p2; p3]),
      (argmax_pt psum p0 [p1; p2; p3]), (argmax_pt pdiff p0 [p1; p2; p3]).
    split; [reflexivity |].
    split; [exact I1 | split; [exact I3 | split; [exact I2 | split; [exact I4 |]]]].
    intros q Hq. specialize (M1 q Hq). specialize (M2 q Hq).
    specialize (M3 q Hq). specialize (M4 q Hq).
    set (tr := argmin_pt pdiff p0 [p1; p2; p3]) in *.
    set (bl := argmax_pt pdiff p0 [p1; p2; p3]) in *.
    unfold pdiff in M3, M4.
    split; [exact M1 | split; [exact M2 | split; lra]].
Qed.

(** ** Rectification *)

Lemma detect_step_corners names conf_thres cs em d :
  List.length (fst (detect_step names conf_thres (cs, em) d)) =
  (List.length cs +
   if Qle_bool conf_thres (det_conf d) &&
      mem_str (_normalize_label (label_of names d)) corner_names then 1 else 0)%nat.
Proof.
  unfold detect_step.
  destruct (Qle_bool conf_thres (det_conf d));
    destruct (mem_str (_normalize_label (label_of names d)) corner_names);
    destruct (mem_str (_normalize_label (label_of names d)) emblem_names);
    simpl; rewrite ?length_app; simpl; lia.
Qed.

Lemma detect_fold_corners names conf_thres boxes cs em :
  List.length (fst (fold_left (detect_step names conf_thres) boxes (cs, em))) =
  (List.length cs + count_passing_corners names boxes conf_thres)%nat.
Proof.
  revert cs em. induction boxes as [| d boxes IH]; intros cs em.
  - unfold count_passing_corners. simpl. lia.
  - cbn [fold_left].
    pose proof (detect_step_corners names conf_thres cs em d) as Hs.
    destruct (detect_step names conf_thres (cs, em) d) as [cs' em'].
    rewrite IH. cbn [fst] in Hs. rewrite Hs.
    unfold count_passing_corners. cbn [filter].
    destruct (Qle_bool conf_thres (det_conf d) &&
              mem_str (_normalize_label (label_of names d)) corner_names);
      simpl; lia.
Qed.

Lemma detect_points_few_corners names boxes conf_thres :
  (count_passing_corners names boxes conf_thres < 3)%nat ->
  (List.length (snd (detect_points names boxes conf_thres)) < 3)%nat.
Proof.
  intros H. unfold detect_points.
  pose proof (detect_fold_corners names conf_thres boxes [] None) as Hl.
  destruct (fold_left (detect_step names conf_thres) boxes ([], None)) as [cs em].
  simpl in Hl |- *.
  destruct (4 <? List.length cs)%nat eqn:E4.
  - apply Nat.ltb_lt in E4. lia.
  - rewrite length_map. lia.
Qed.

(** C5.  When the image exists and decodes and fewer than 3 corner
    detections pass the confidence threshold, [crop_cccd] returns [None]
    (no exception) and writes no rectified image. *)
Theorem crop_cccd_insufficient_corners (E : crop_env) image_path output_path
    conf_thres deskew expand aspect (image : img E) :
  yolo_available E = true ->
  path_exists E image_path = true ->
  imread E image_path = Some image ->
  (count_passing_corners (class_names E) (yolo_boxes E image) conf_thres < 3)%nat ->
  crop_cccd E image_path output_path conf_thres deskew expand aspect = (Returned None, None).
Proof.
  intros Hy Hp Hr Hc. unfold crop_cccd. rewrite Hy, Hp, Hr. simpl.
  pose proof (detect_points_few_corners _ _ _ Hc) as Hl.
  destruct (detect_points (class_names E) (yolo_boxes E image) conf_thres) as [em cs].
  simpl in Hl. apply Nat.ltb_lt in Hl. now rewrite Hl.
Qed.

Lemma crop_cccd_insufficient_corners_witness :
  yolo_available toy_env = true /\
  path_exists toy_env "card.jpg" = true /\
  imread toy_env "card.jpg" = Some (50, 80)%Z /\
  (count_passing_corners (class_names toy_env) (yolo_boxes toy_env (50, 80)%Z) (3 # 10) < 3)%nat /\
  crop_cccd toy_env "card.jpg" None (3 # 10) true (6 # 100) (Some (1585 # 1000)) =
    (Returned None, None).
Proof.
  split; [reflexivity |]. split; [reflexivity |]. split; [reflexivity |].
  split; [vm_compute; lia |].
  apply (crop_cccd_insufficient_corners toy_env "card.jpg" None (3 # 10) true (6 # 100)
           (Some (1585 # 1000)) (50, 80)%Z); try reflexivity. vm_compute; lia.
Defined.

(** C6.  From exactly 3 corners the completion appends [pi + pj - pk],
    where [(pi, pj)] is a pair of maximal distance among the three and
    [pk] the remaining corner; from [(0,0), (10,0), (10,5)] it appends
    [(0,5)]. *)
Theorem three_corner_parallelogram_completion (p0 p1 p2 : point) :
  (exists pi pj pk,
     ((pi, pj, pk) = (p0, p1, p2) \/ (pi, pj, pk) = (p0, p2, p1) \/
      (pi, pj, pk) = (p1, p2, p0)) /\
     dist2 p0 p1 <= dist2 pi pj /\ dist2 p0 p2 <= dist2 pi pj /\
     dist2 p1 p2 <= dist2 pi pj /\
     complete_fourth_corner [p0; p1; p2] =
       [p0; p1; p2; (fst pi + fst pj - fst pk, snd pi + snd pj - snd pk)]) /\
  complete_fourth_corner [(0, 0); (10, 0); (10, 5)] = [(0, 0); (10, 0); (10, 5); (0, 5)].
Proof.
  split; [| reflexivity].
  unfold complete_fourth_corner, max_pair. cbn -[dist2 Qle_bool].
  set (a := dist2 p0 p1). set (b := dist2 p0 p2). set (c := dist2 p1 p2).
  destruct (Qle_bool b a) eqn:E1; cbn -[dist2 Qle_bool].
  - apply Qle_bool_iff in E1.
    destruct (Qle_bool c a) eqn:E2; cbn -[dist2 Qle_bool].
    + apply Qle_bool_iff in E2. exists p0, p1, p2.
      split; [now left |]. split; [apply Qle_refl |]. auto.
    + assert (a < c) by (apply Qnot_le_lt; intro Hn; apply Qle_bool_iff in Hn; congruence).
      exists p1, p2, p0. split; [now right; right |].
      split; [now apply Qlt_le_weak |]. split.
      * apply Qle_trans with a; [exact E1 | now apply Qlt_le_weak].
      * split; [apply Qle_refl | reflexivity].
  - assert (a < b) by (apply Qnot_le_lt; intro Hn; apply Qle_bool_iff in Hn; congruence).
    destruct (Qle_bool c b) eqn:E2; cbn -[dist2 Qle_bool].
    + apply Qle_bool_iff in E2. exists p0, p2, p1.
      split; [now right; left |]. split; [now apply Qlt_le_weak |].
      split; [apply Qle_refl |]. auto.
    + assert (b < c) by (apply Qnot_le_lt; intro Hn; apply Qle_bool_iff in Hn; congruence).
      exists p1, p2, p0. split; [now right; right |].
      split; [apply Qle_trans with b; apply Qlt_le_weak; assumption |].
      split; [now apply Qlt_le_weak |]. split; [apply Qle_refl | reflexivity].
Qed.

(** C9.  On every warped image (the warp never yields a zero-width image,
    so [w >= 1]) the top-edge angle is computed from the hardcoded corners
    [(0,0)] and [(w-1,0)], is [0], does not exceed the [0.3] degree
    threshold, and the deskew step returns the image unchanged. *)
Theorem deskew_top_edge_is_identity (E : crop_env) (warped : img E) :
  (1 <= snd (img_shape E warped))%Z ->
  deskew_angle E warped = 0%R /\
  ~ (3 / 10 < Rabs (deskew_angle E warped))%R /\
  deskew_top_edge_step E warped = warped.
Proof.
  intros Hw.
  assert (Ha : deskew_angle E warped = 0%R).
  { unfold deskew_angle. destruct (img_shape E warped) as [h w]. simpl in Hw.
    unfold atan2, degrees. cbn [fst snd].
    replace (0 - 0)%Z with 0%Z by lia. replace (w - 1 - 0)%Z with (w - 1)%Z by lia.
    destruct (Rlt_dec 0 (IZR (w - 1))) as [Hpos | Hpos].
    - unfold Rdiv. rewrite Rmult_0_l, atan_0. ring.
    - destruct (Rlt_dec (IZR (w - 1)) 0) as [Hneg | Hneg].
      + apply lt_IZR in Hneg. lia.
      + destruct (Rlt_dec 0 (IZR 0)) as [H0 | H0].
        * exfalso. exact (Rlt_irrefl _ H0).
        * destruct (Rlt_dec (IZR 0) 0) as [H1 | H1].
          -- exfalso. exact (Rlt_irrefl _ H1).
          -- unfold Rdiv. ring. }
  assert (Hn : ~ (3 / 10 < Rabs (deskew_angle E warped))%R).
  { rewrite Ha, Rabs_R0. intro Hlt.
    apply (Rlt_asym _ _ Hlt). unfold Rdiv. apply Rmult_lt_0_compat.
    - apply IZR_lt. lia.
    - apply Rinv_0_lt_compat, IZR_lt. lia. }
  split; [exact Ha | split; [exact Hn |]].
  unfold deskew_top_edge_step. destruct (img_shape E warped) as [h w] eqn:Hs.
  destruct (Rlt_dec (3 / 10) (Rabs (deskew_angle E warped))) as [Hlt | _].
  - contradiction.
  - reflexivity.
Qed.

Lemma deskew_top_edge_is_identity_witness :
  (1 <= snd (img_shape toy_env (50, 80)%Z))%Z /\
  deskew_top_edge_step toy_env (50, 80)%Z = (50, 80)%Z.
Proof.
  split; [simpl; lia |].
  apply (deskew_top_edge_is_identity toy_env (50, 80)%Z). simpl; lia.
Defined.

(** C10.  Without a landmark the image is returned unchanged; when the
    projected landmark is in the top-left quadrant of none of the 0, 90
    (clockwise) and 180 degree candidates, the 270 degree candidate is
    returned with no test of its own: at the centre [(w/2, h/2)] it is
    returned although the landmark, at [(h/2, w/2)] in its frame, is not
    in its top-left quadrant. *)
Theorem rotate_to_top_left_fallback (E : crop_env) (image : img E) :
  _rotate_to_place_point_top_left E image None = image /\
  (forall x y,
     let '(h, w) := img_shape E image in
     quadrant x y w h = false ->
     quadrant (inject_Z h - y) x h w = false ->
     quadrant (inject_Z w - x) (inject_Z h - y) w h = false ->
     _rotate_to_place_point_top_left E image (Some (x, y)) =
       rotate E ROTATE_90_COUNTERCLOCKWISE image) /\
  (let '(h, w) := img_shape E image in
   let x := inject_Z w / 2 in
   let y := inject_Z h / 2 in
   _rotate_to_place_point_top_left E image (Some (x, y)) =
     rotate E ROTATE_90_COUNTERCLOCKWISE image /\
   quadrant y (inject_Z w - x) h w = false).
Proof.
  split; [reflexivity |]. split.
  - intros x y. unfold _rotate_to_place_point_top_left.
    destruct (img_shape E image) as [h w]. intros H0 H1 H2.
    now rewrite H0, H1, H2.
  - unfold _rotate_to_place_point_top_left.
    destruct (img_shape E image) as [h w].
    assert (Hq : forall a b (wd ht : Z), a == inject_Z wd / 2 -> quadrant a b wd ht = false).
    { intros a b wd ht Ha. unfold quadrant.
      assert (Hle : Qle_bool (inject_Z wd / 2) a = true)
        by (apply Qle_bool_iff; rewrite Ha; apply Qle_refl).
      now rewrite Hle. }
    assert (Hw : inject_Z w - inject_Z w / 2 == inject_Z w / 2) by field.
    assert (Hh : inject_Z h - inject_Z h / 2 == inject_Z h / 2) by field.
    rewrite (Hq (inject_Z w / 2) _ w h) by reflexivity.
    rewrite (Hq (inject_Z h - inject_Z h / 2) _ h w) by exact Hh.
    rewrite (Hq (inject_Z w - inject_Z w / 2) _ w h) by exact Hw.
    split; [reflexivity |]. now apply Hq.
Qed.

Lemma rotate_to_top_left_fallback_witness :
  _rotate_to_place_point_top_left toy_env (50, 80)%Z (Some (40, 25)) = (80, 50)%Z.
Proof.
  destruct (rotate_to_top_left_fallback toy_env (50, 80)%Z) as [_ [H _]].
  apply (H 40 25); vm_compute; reflexivity.
Defined.

(** ** Field extraction *)

Lemma dget_dset {V} (d : dict V) k v k' :
  dget (dset d k v) k' = if String.eqb k k' then Some v else dget d k'.
Proof.
  induction d as [| [k0 v0] r IH]; simpl.
  - reflexivity.
  - destruct (String.eqb k0 k) eqn:E0.
    + apply String.eqb_eq in E0. subst k0. simpl.
      destruct (String.eqb k k'); reflexivity.
    + simpl. rewrite IH. destruct (String.eqb k0 k') eqn:E1; [| reflexivity].
      apply String.eqb_eq in E1. subst k'.
      rewrite String.eqb_sym, E0. reflexivity.
Qed.

Lemma dget_setdefault {V} (d : dict V) k v k' :
  dget (setdefault d k v) k' =
  if String.eqb k k' then Some (dget_or d k v) else dget d k'.
Proof.
  unfold setdefault, dget_or. destruct (dget d k) eqn:E.
  - destruct (String.eqb k k') eqn:E1; [| reflexivity].
    apply String.eqb_eq in E1. subst. exact E.
  - apply dget_dset.
Qed.

Lemma dget_None_notin {V} (d : dict V) k : dget d k = None <-> ~ In k (map fst d).
Proof.
  induction d as [| [k0 v0] r IH]; simpl.
  - tauto.
  - destruct (String.eqb k0 k) eqn:E.
    + apply String.eqb_eq in E. split; [discriminate | intro H; exfalso; now apply H; left].
    + apply String.eqb_neq in E. rewrite IH. split; intros H; [intros [H' | H']; auto | auto].
Qed.

Lemma keys_dset {V} (d : dict V) k v :
  map fst (dset d k v) = if dget d k then map fst d else (map fst d ++ [k])%list.
Proof.
  induction d as [| [k0 v0] r IH]; simpl; [reflexivity |].
  destruct (String.eqb k0 k) eqn:E; simpl; [reflexivity |].
  rewrite IH. destruct (dget r k); reflexivity.
Qed.

Lemma NoDup_keys_dset {V} (d : dict V) k v :
  NoDup (map fst d) -> NoDup (map fst (dset d k v)).
Proof.
  intros H. rewrite keys_dset. destruct (dget d k) eqn:E; [exact H |].
  apply dget_None_notin in E. apply NoDup_app; auto.
  - constructor; [intros [] | constructor].
  - intros x Hx [<- | []]. contradiction.
Qed.

Lemma dget_map_keys {V} (keys : list string) (f : string -> V) k :
  In k keys -> dget (map (fun k' => (k', f k')) keys) k = Some (f k).
Proof.
  induction keys as [| k0 ks IH]; simpl; [tauto |].
  intros Hk. destruct (String.eqb k0 k) eqn:E.
  - apply String.eqb_eq in E. now subst.
  - apply String.eqb_neq in E. destruct Hk as [-> | Hk]; [congruence | auto].
Qed.

Lemma dget_map_keys_notin {V} (keys : list string) (f : string -> V) k :
  ~ In k keys -> dget (map (fun k' => (k', f k')) keys) k = None.
Proof.
  intros H. apply dget_None_notin. rewrite map_map. simpl. now rewrite map_id.
Qed.

Ltac dget_simpl :=
  repeat first [ rewrite dget_dset | rewrite dget_setdefault ].

Lemma collect_step_multiline names width height thr st d L acc :
  mem_str L MULTILINE_FIELDS = true ->
  dget (field_to_bboxes st) L = Some acc ->
  let st' := collect_step names width height thr st d in
  dget (field_to_bboxes st') L =
    Some (acc ++ (if String.eqb (label_of names d) L && negb (Qle_bool (det_conf d) thr)
                  then [(pad_bbox (det_xyxy d) width height, det_conf d)] else []))%list /\
  dget (field_to_text st') L = dget (field_to_text st) L /\
  dget (field_to_confidence st') L = dget (field_to_confidence st) L /\
  dget (field_to_ocr_confidence st') L = dget (field_to_ocr_confidence st) L.
Proof.
  intros HL Hacc. unfold collect_step.
  set (l := label_of names d).
  set (st1 := match dget (field_to_bboxes st) l with
              | Some _ => st
              | None => OcrState (dset (field_to_bboxes st) l [])
                          (setdefault (field_to_text st) l "")
                          (setdefault (field_to_confidence st) l 0)
                          (setdefault (field_to_ocr_confidence st) l 0)
              end).
  assert (H1 : dget (field_to_bboxes st1) L = Some acc /\
               dget (field_to_text st1) L = dget (field_to_text st) L /\
               dget (field_to_confidence st1) L = dget (field_to_confidence st) L /\
               dget (field_to_ocr_confidence st1) L = dget (field_to_ocr_confidence st) L).
  { unfold st1. destruct (dget (field_to_bboxes st) l) eqn:El; [auto |].
    simpl. dget_simpl. destruct (String.eqb l L) eqn:E.
    - apply String.eqb_eq in E. subst. congruence.
    - auto. }
  destruct H1 as [B1 [T1 [C1 O1]]].
  destruct (Qle_bool (det_conf d) thr) eqn:Ec.
  - cbn [negb]. rewrite andb_false_r, app_nil_r. auto.
  - cbn [negb]. rewrite andb_true_r.
    destruct (mem_str l MULTILINE_FIELDS) eqn:Hm.
    + cbn [field_to_bboxes field_to_text field_to_confidence field_to_ocr_confidence].
      dget_simpl. destruct (String.eqb l L) eqn:ElL.
      * apply String.eqb_eq in ElL. unfold dget_or. rewrite ElL, B1. auto.
      * rewrite app_nil_r. auto.
    + assert (ElL : String.eqb l L = false).
      { apply String.eqb_neq. intros ->. congruence. }
      rewrite ElL, app_nil_r.
      destruct (match dget_or (field_to_bboxes st1) l [] with
                | [] => true
                | (_, c0) :: _ => negb (Qle_bool (det_conf d) c0)
                end);
        cbn [field_to_bboxes field_to_text field_to_confidence field_to_ocr_confidence];
        dget_simpl; rewrite ?ElL; auto.
Qed.

Lemma collect_fold_multiline names width height thr boxes st L acc :
  mem_str L MULTILINE_FIELDS = true ->
  dget (field_to_bboxes st) L = Some acc ->
  let st' := fold_left (collect_step names width height thr) boxes st in
  dget (field_to_bboxes st') L = Some (acc ++ retained names boxes width height thr L)%list /\
  same_at L st st'.
Proof.
  intros HL. revert st acc.
  induction boxes as [| d boxes IH]; intros st acc Hacc; simpl.
  - rewrite app_nil_r. unfold same_at. auto.
  - destruct (collect_step_multiline names width height thr st d L acc HL Hacc)
      as [B [T [C O]]].
    destruct (IH _ _ B) as [B' [T' [C' O']]].
    split.
    + rewrite B', <- app_assoc. f_equal. f_equal.
      unfold retained. simpl.
      destruct (String.eqb (label_of names d) L && negb (Qle_bool (det_conf d) thr));
        reflexivity.
    + unfold same_at. rewrite T', C', O'. auto.
Qed.

Lemma collect_step_NoDup names width height thr st d :
  NoDup (map fst (field_to_bboxes st)) ->
  NoDup (map fst (field_to_bboxes (collect_step names width height thr st d))).
Proof.
  intros H. unfold collect_step.
  set (l := label_of names d).
  set (st1 := match dget (field_to_bboxes st) l with
              | Some _ => st
              | None => OcrState (dset (field_to_bboxes st) l [])
                          (setdefault (field_to_text st) l "")
                          (setdefault (field_to_confidence st) l 0)
                          (setdefault (field_to_ocr_confidence st) l 0)
              end).
  assert (H1 : NoDup (map fst (field_to_bboxes st1))).
  { unfold st1. destruct (dget (field_to_bboxes st) l); [exact H |].
    now apply NoDup_keys_dset. }
  destruct (Qle_bool (det_conf d) thr); [exact H1 |].
  destruct (mem_str l MULTILINE_FIELDS); [now apply NoDup_keys_dset |].
  destruct (match dget_or (field_to_bboxes st1) l [] with
            | [] => true
            | (_, c0) :: _ => negb (Qle_bool (det_conf d) c0)
            end); [now apply NoDup_keys_dset | exact H1].
Qed.

Lemma collect_fold_NoDup names width height thr boxes st :
  NoDup (map fst (field_to_bboxes st)) ->
  NoDup (map fst (field_to_bboxes (fold_left (collect_step names width height thr) boxes st))).
Proof.
  revert st. induction boxes as [| d boxes IH]; intros st H; simpl; [exact H |].
  apply IH. now apply collect_step_NoDup.
Qed.

Lemma merge_fold_None r entries : fold_left (merge_step r) entries None = None.
Proof. induction entries; simpl; auto. Qed.

Lemma merge_step_other r st st1 k its L :
  merge_step r (Some st) (k, its) = Some st1 -> k <> L -> same_at L st st1.
Proof.
  intros Hs Hk. apply String.eqb_neq in Hk. unfold merge_step in Hs.
  unfold same_at.
  destruct its as [| it its']; [injection Hs as <-; auto |].
  destruct (recognize_boxes r (it :: its')) as [[[texts ycs] ocs] |]; [| discriminate].
  destruct (mem_str k MULTILINE_FIELDS && negb (List.length ycs =? 0)%nat);
    [| destruct (negb (List.length ycs =? 0)%nat)];
    injection Hs as <-; simpl; dget_simpl; rewrite Hk; auto.
Qed.

Lemma merge_step_self r st st1 L its :
  merge_step r (Some st) (L, its) = Some st1 ->
  exists res, recognize_boxes r its = Some res /\ merge_effect L its res st st1.
Proof.
  intros Hs. unfold merge_step in Hs.
  destruct its as [| it its'].
  - injection Hs as <-. exists ([], [], []). split; [reflexivity |].
    unfold merge_effect. auto.
  - destruct (recognize_boxes r (it :: its')) as [[[texts ycs] ocs] |] eqn:Er;
      [| discriminate].
    exists (texts, ycs, ocs). split; [reflexivity |]. unfold merge_effect.
    destruct ycs as [| y ycs'].
    + simpl in Hs. rewrite andb_false_r in Hs. injection Hs as <-. simpl.
      dget_simpl. rewrite String.eqb_refl. auto.
    + cbn [List.length Nat.eqb negb] in Hs. rewrite andb_true_r in Hs.
      destruct (mem_str L MULTILINE_FIELDS);
        injection Hs as <-; cbn [field_to_text field_to_confidence field_to_ocr_confidence];
        dget_simpl; rewrite String.eqb_refl; auto.
Qed.

Lemma merge_fold_other r entries st st' L :
  ~ In L (map fst entries) ->
  fold_left (merge_step r) entries (Some st) = Some st' -> same_at L st st'.
Proof.
  revert st. induction entries as [| [k its] entries IH]; intros st HL Hf;
    cbn [fold_left map fst In] in *.
  - injection Hf as <-. unfold same_at. auto.
  - destruct (merge_step r (Some st) (k, its)) as [st1 |] eqn:Hs.
    + pose proof (merge_step_other r st st1 k its L Hs ltac:(intuition)) as [T1 [C1 O1]].
      destruct (IH st1 ltac:(intuition) Hf) as [T2 [C2 O2]].
      unfold same_at. rewrite T2, C2, O2. auto.
    + rewrite merge_fold_None in Hf. discriminate.
Qed.

Lemma merge_effect_same_at L items res st st1 st2 :
  merge_effect L items res st st1 -> same_at L st1 st2 -> merge_effect L items res st st2.
Proof.
  unfold merge_effect, same_at. destruct res as [[texts ycs] ocs].
  intros [T [C O]] [T' [C' O']]. rewrite T', C', O'. auto.
Qed.

Lemma merge_effect_shift L items res st0 st st1 :
  same_at L st0 st -> merge_effect L items res st st1 -> merge_effect L items res st0 st1.
Proof.
  unfold merge_effect, same_at. destruct res as [[texts ycs] ocs].
  intros [T [C O]] [T' [C' O']]. rewrite <- T, <- C, <- O. auto.
Qed.

Lemma merge_fold_key r entries st st' L items :
  NoDup (map fst entries) -> In (L, items) entries ->
  fold_left (merge_step r) entries (Some st) = Some st' ->
  exists res, recognize_boxes r items = Some res /\ merge_effect L items res st st'.
Proof.
  revert st. induction entries as [| [k its] entries IH]; intros st Hnd Hin Hf;
    cbn [fold_left map fst In] in *; [contradiction |].
  inversion Hnd as [| k' ks Hk Hnd']; subst.
  destruct (merge_step r (Some st) (k, its)) as [st1 |] eqn:Hs;
    [| rewrite merge_fold_None in Hf; discriminate].
  destruct Hin as [Heq | Hin].
  - injection Heq as -> ->.
    destruct (merge_step_self r st st1 L items Hs) as [res [Hr He]].
    exists res. split; [exact Hr |].
    eapply merge_effect_same_at; [exact He |].
    now apply (merge_fold_other r entries).
  - assert (HkL : k <> L).
    { intros ->. apply Hk. now apply (in_map fst) in Hin. }
    destruct (IH st1 Hnd' Hin Hf) as [res [Hr He]].
    exists res. split; [exact Hr |].
    eapply merge_effect_shift; [| exact He].
    now apply (merge_step_other r st st1 k its L).
Qed.

Lemma recognize_boxes_fold r items :
  recognize_boxes r items =
  fold_left (recognize_step r) (sort_by_key (fun it => zy1 (fst it)) items) (Some ([], [], [])).
Proof. reflexivity. Qed.

Lemma recognize_fold_None r l : fold_left (recognize_step r) l None = None.
Proof. induction l; simpl; auto. Qed.

Lemma recognize_fold_spec r l a b c a' b' c' :
  fold_left (recognize_step r) l (Some (a, b, c)) = Some (a', b', c') ->
  a' = (a ++ map (text_of r) (filter (kept r) l))%list /\
  b' = (b ++ map snd (filter (kept r) l))%list /\
  c' = (c ++ map (ocr_of r) (filter (kept r) l))%list.
Proof.
  revert a b c. induction l as [| [bb cs] l IH]; intros a b c Hf; cbn [fold_left] in Hf.
  - injection Hf as <- <- <-. rewrite !app_nil_r. auto.
  - unfold recognize_step at 2 in Hf.
    destruct (crop_fails bb); [rewrite recognize_fold_None in Hf; discriminate |].
    cbn [filter].
    assert (Hk : kept r (bb, cs) = truthy (fst (predict_with_confidence (r bb)))) by reflexivity.
    assert (Htx : text_of r (bb, cs) =
                  match fst (predict_with_confidence (r bb)) with
                  | Some t => t | None => "" end) by reflexivity.
    assert (Ho : ocr_of r (bb, cs) = snd (predict_with_confidence (r bb))) by reflexivity.
    rewrite Hk.
    destruct (predict_with_confidence (r bb)) as [[t |] oc] eqn:Hp; cbn [fst snd] in *.
    + destruct (truthy (Some t)) eqn:Ht.
      * destruct (IH _ _ _ Hf) as [-> [-> ->]].
        cbn [map]. rewrite Htx, Ho, <- !app_assoc. auto.
      * exact (IH _ _ _ Hf).
    + exact (IH _ _ _ Hf).
Qed.

Lemma recognize_boxes_spec r items texts ycs ocs :
  recognize_boxes r items = Some (texts, ycs, ocs) ->
  let K := filter (kept r) (sort_by_key (fun it => zy1 (fst it)) items) in
  texts = map (text_of r) K /\ ycs = map snd K /\ ocs = map (ocr_of r) K.
Proof.
  rewrite recognize_boxes_fold. intros H.
  exact (recognize_fold_spec r _ [] [] [] texts ycs ocs H).
Qed.

Lemma mem_str_In s l : mem_str s l = true -> In s l.
Proof.
  unfold mem_str. intros H. apply existsb_exists in H as [x [Hx Heq]].
  apply String.eqb_eq in Heq. now subst.
Qed.

Lemma dget_In {V} (d : dict V) k v : dget d k = Some v -> In (k, v) d.
Proof.
  induction d as [| [k0 v0] r IH]; simpl; [discriminate |].
  destruct (String.eqb k0 k) eqn:E.
  - intros [= <-]. apply String.eqb_eq in E. subst. now left.
  - intros H. right. auto.
Qed.

Lemma multiline_init L :
  mem_str L MULTILINE_FIELDS = true ->
  In L DESIRED_FIELDS /\ dget (field_to_bboxes init_state) L = Some [] /\
  dget (field_to_text init_state) L = Some "" /\
  dget (field_to_confidence init_state) L = Some 0 /\
  dget (field_to_ocr_confidence init_state) L = Some 0.
Proof.
  intros H. apply mem_str_In in H.
  destruct H as [<- | [<- | [<- | []]]]; vm_compute; intuition.
Qed.

Lemma init_NoDup : NoDup (map fst (field_to_bboxes init_state)).
Proof.
  vm_compute. repeat constructor; simpl; intuition discriminate.
Qed.

(** What [run] reports for a multi-line field [L]. *)
Lemma run_multiline_field names boxes width height thr r p L :
  mem_str L MULTILINE_FIELDS = true ->
  run names boxes width height thr r = Some p ->
  exists texts ycs ocs,
    recognize_boxes r (retained names boxes width height thr L) = Some (texts, ycs, ocs) /\
    dget (data p) L = Some (strip (join_space texts)) /\
    dget (yolo_confidence p) L =
      Some (round3 (match ycs with [] => 0 | _ => mean ycs end)) /\
    dget (ocr_confidence p) L =
      Some (round3 (match ycs with [] => 0 | _ => mean ocs end)).
Proof.
  intros HL Hrun. unfold run, run_state in Hrun.
  destruct (multiline_init L HL) as [HD [B0 [T0 [C0 O0]]]].
  set (st0 := fold_left (collect_step names width height thr) boxes init_state) in Hrun.
  destruct (collect_fold_multiline names width height thr boxes init_state L [] HL B0)
    as [B1 [T1 [C1 O1]]].
  fold st0 in B1, T1, C1, O1. simpl in B1.
  destruct (fold_left (merge_step r) (field_to_bboxes st0) (Some st0)) as [st' |] eqn:Hf;
    [| discriminate].
  simpl in Hrun. injection Hrun as <-.
  destruct (merge_fold_key r _ st0 st' L _
              (collect_fold_NoDup _ _ _ _ _ _ init_NoDup) (dget_In _ _ _ B1) Hf)
    as [[[texts ycs] ocs] [Hr [Te [Ce Oe]]]].
  exists texts, ycs, ocs. split; [exact Hr |].
  unfold make_payload; cbn [data yolo_confidence ocr_confidence].
  rewrite !dget_map_keys by exact HD. unfold dget_or.
  rewrite Te, Ce, Oe, T1, C1, O1, T0, C0, O0. rewrite HL.
  destruct (retained names boxes width height thr L) as [| it its] eqn:Eret.
  - vm_compute in Hr. injection Hr as <- <- <-. auto.
  - destruct ycs; auto.
Qed.

(** *** Stable sorting *)

Lemma filter_Permutation {A} (f : A -> bool) l l' :
  Permutation l l' -> Permutation (filter f l) (filter f l').
Proof.
  induction 1 as [| x l l' _ IH | x y l | l l' l'' _ IH1 _ IH2]; simpl.
  - constructor.
  - destruct (f x); auto.
  - destruct (f x), (f y); auto. constructor.
  - eapply Permutation_trans; eauto.
Qed.

Lemma insert_stable_perm {A} (before : A -> A -> bool) x l :
  Permutation (insert_stable before x l) (x :: l).
Proof.
  induction l as [| y l IH]; simpl; [auto |].
  destruct (before y x); [| auto].
  eapply Permutation_trans; [apply perm_skip, IH | constructor].
Qed.

Lemma sort_stable_perm {A} (before : A -> A -> bool) l :
  Permutation (sort_stable before l) l.
Proof.
  unfold sort_stable.
  assert (H : forall acc, Permutation (fold_left (fun acc x => insert_stable before x acc) l acc)
                                      (l ++ acc)%list).
  { induction l as [| x l IH]; intros acc; simpl; [auto |].
    eapply Permutation_trans; [apply IH |].
    eapply Permutation_trans; [apply Permutation_app_head, insert_stable_perm |].
    apply Permutation_sym, Permutation_middle. }
  rewrite <- (app_nil_r l) at 2. apply H.
Qed.

Section KeySort.
Context {A : Type} (key : A -> Z).

Lemma insert_key_HdRel y x l :
  (key_le key) y x -> HdRel (key_le key) y l ->
  HdRel (key_le key) y (insert_stable (fun a b => (key a <=? key b)%Z) x l).
Proof.
  intros Hyx Hl. destruct l as [| z l]; simpl.
  - constructor. exact Hyx.
  - destruct (key z <=? key x)%Z; constructor; [now inversion Hl | exact Hyx].
Qed.

Lemma insert_key_sorted x l :
  Sorted (key_le key) l -> Sorted (key_le key) (insert_stable (fun a b => (key a <=? key b)%Z) x l).
Proof.
  induction l as [| y l IH]; intros Hs; simpl.
  - repeat constructor.
  - inversion Hs as [| ? ? Hs' Hhd]; subst.
    destruct (key y <=? key x)%Z eqn:E.
    + apply Z.leb_le in E. constructor; [now apply IH |].
      now apply insert_key_HdRel.
    + apply Z.leb_gt in E. constructor; [exact Hs |].
      constructor. unfold key_le. lia.
Qed.

Lemma sort_by_key_sorted l : Sorted (key_le key) (sort_by_key key l).
Proof.
  unfold sort_by_key, sort_stable.
  assert (H : forall acc, Sorted (key_le key) acc ->
    Sorted (key_le key) (fold_left (fun acc x => insert_stable (fun a b => (key a <=? key b)%Z) x acc) l acc)).
  { induction l as [| x l IH]; intros acc Hacc; simpl; [exact Hacc |].
    apply IH. now apply insert_key_sorted. }
  apply H. constructor.
Qed.

Lemma key_le_trans : Transitive (key_le key).
Proof. intros a b c. unfold key_le. lia. Qed.

Lemma filter_key_above y l :
  Forall (fun a => (y < key a)%Z) l -> filter (fun a => (key a =? y)%Z) l = [].
Proof.
  induction l as [| a l IH]; intros H; simpl; [reflexivity |].
  inversion H as [| ? ? Ha Hl]; subst.
  replace (key a =? y)%Z with false by (symmetry; apply Z.eqb_neq; lia).
  now apply IH.
Qed.

(** Inserting [x] into a sorted list leaves the elements of every key
    in their order, [x] after those of its own key. *)
Lemma insert_key_filter_eq y x l :
  Sorted (key_le key) l ->
  filter (fun a => (key a =? y)%Z) (insert_stable (fun a b => (key a <=? key b)%Z) x l) =
  (filter (fun a => (key a =? y)%Z) l ++ (if (key x =? y)%Z then [x] else []))%list.
Proof.
  induction l as [| z l IH]; intros Hs; cbn [insert_stable].
  - cbn [filter app]. destruct (key x =? y)%Z; reflexivity.
  - inversion Hs as [| ? ? Hs' Hhd]; subst.
    destruct (key z <=? key x)%Z eqn:E.
    + cbn [filter]. rewrite IH by exact Hs'.
      destruct (key z =? y)%Z; reflexivity.
    + apply Z.leb_gt in E. cbn [filter].
      destruct (key x =? y)%Z eqn:Ex.
      * apply Z.eqb_eq in Ex. subst y.
        apply Sorted_StronglySorted in Hs; [| apply key_le_trans].
        inversion Hs as [| ? ? _ Hf]; subst.
        replace (key z =? key x)%Z with false by (symmetry; apply Z.eqb_neq; lia).
        rewrite filter_key_above; [reflexivity |].
        eapply Forall_impl; [| exact Hf]. intros a Ha. unfold key_le in Ha. lia.
      * rewrite app_nil_r. reflexivity.
Qed.

(** [sorted] is stable: the elements of each key keep their input order. *)
Lemma sort_by_key_filter_eq y l :
  filter (fun a => (key a =? y)%Z) (sort_by_key key l) = filter (fun a => (key a =? y)%Z) l.
Proof.
  unfold sort_by_key, sort_stable.
  assert (H : forall acc, Sorted (key_le key) acc ->
    filter (fun a => (key a =? y)%Z)
      (fold_left (fun acc x => insert_stable (fun a b => (key a <=? key b)%Z) x acc) l acc) =
    (filter (fun a => (key a =? y)%Z) acc ++ filter (fun a => (key a =? y)%Z) l)%list).
  { induction l as [| x l IH]; intros acc Hacc; cbn [fold_left filter].
    - now rewrite app_nil_r.
    - rewrite IH by now apply insert_key_sorted.
      rewrite insert_key_filter_eq by exact Hacc.
      rewrite <- app_assoc. destruct (key x =? y)%Z; reflexivity. }
  rewrite H by constructor. reflexivity.
Qed.

(** Two sorted arrangements of the same elements with pairwise distinct
    keys coincide. *)
Lemma sorted_perm_unique (K1 K2 : list A) :
  Sorted (key_le key) K1 -> Sorted (key_le key) K2 -> Permutation K1 K2 ->
  NoDup (map key K1) -> K1 = K2.
Proof.
  revert K2. induction K1 as [| a K1 IH]; intros K2 S1 S2 P N.
  - symmetry. now apply Permutation_nil.
  - destruct K2 as [| b K2]; [now apply Permutation_sym, Permutation_nil_cons in P |].
    apply Sorted_StronglySorted in S1, S2; try exact key_le_trans.
    inversion S1 as [| ? ? SS1 F1]; inversion S2 as [| ? ? SS2 F2]; subst.
    inversion N as [| ? ? Na N1]; subst.
    assert (Hab : a = b).
    { assert (Ha : In a (b :: K2)) by (eapply Permutation_in; [exact P | now left]).
      assert (Hb : In b (a :: K1)) by (eapply Permutation_in; [apply Permutation_sym, P | now left]).
      destruct Ha as [Ha | Ha]; [now symmetry |].
      destruct Hb as [Hb | Hb]; [exact Hb |].
      rewrite Forall_forall in F1, F2.
      specialize (F1 b Hb). specialize (F2 a Ha). unfold key_le in F1, F2.
      exfalso. apply Na. replace (key a) with (key b) by lia. now apply in_map. }
    subst b. f_equal.
    apply IH; auto.
    + now apply StronglySorted_Sorted.
    + now apply StronglySorted_Sorted.
    + now apply Permutation_cons_inv in P.
Qed.

End KeySort.

Lemma retained_perm names boxes boxes' width height thr L :
  Permutation boxes boxes' ->
  Permutation (retained names boxes width height thr L) (retained names boxes' width height thr L).
Proof.
  intros P. unfold retained. apply Permutation_map, filter_Permutation, P.
Qed.

(** The y-sorted list of a field's boxes is determined by the multiset of
    its boxes when their padded top edges are pairwise distinct. *)
Lemma sort_by_y1_perm_eq (R R' : list (zbox * Q)) :
  Permutation R R' -> NoDup (map (fun it : zbox * Q => zy1 (fst it)) R) ->
  sort_by_key (fun it : zbox * Q => zy1 (fst it)) R =
  sort_by_key (fun it : zbox * Q => zy1 (fst it)) R'.
Proof.
  intros P N. apply (sorted_perm_unique (fun it : zbox * Q => zy1 (fst it)));
    try apply sort_by_key_sorted.
  - eapply Permutation_trans; [apply sort_stable_perm |].
    eapply Permutation_trans; [exact P |].
    apply Permutation_sym, sort_stable_perm.
  - eapply Permutation_NoDup; [| exact N].
    apply Permutation_map, Permutation_sym, sort_stable_perm.
Qed.

(** ** Multi-line text merge *)

(** C7 (counterexample): two "name" boxes with the same top edge are
    merged in detection order, so swapping the detections changes the
    merged text from "A B" to "B A". *)
Lemma multiline_merge_order_depends_on_detection_order :
  let dA := ex_box 10 10 (9 # 10) 0 in
  let dB := ex_box 60 10 (8 # 10) 0 in
  let r := ex_ocr [(8%Z, 9%Z, PredTuple (Some "A") (9 # 10));
                   (58%Z, 9%Z, PredTuple (Some "B") (8 # 10))] in
  Permutation [dA; dB] [dB; dA] /\
  option_map (fun p => dget (data p) "name") (run ex_names [dA; dB] 200 100 (2 # 5) r)
    = Some (Some "A B") /\
  option_map (fun p => dget (data p) "name") (run ex_names [dB; dA] 200 100 (2 # 5) r)
    = Some (Some "B A").
Proof.
  intros dA dB r. split; [apply perm_swap |].
  split; vm_compute; reflexivity.
Qed.

(** C7: the text reported for a multi-line field [L] is the stripped
    single-space join of the non-empty recognized texts of its retained
    boxes, taken in ascending order of the padded top edge [y1], boxes of equal top
    edge in detection order (for every [y], the boxes with [y1 = y]
    appear in the same order as among the retained boxes); when the retained boxes have pairwise distinct
    padded top edges, any reordering of the detections yields the same
    text. *)
Theorem multiline_text_sorted_by_top_edge names boxes width height thr r p L :
  mem_str L MULTILINE_FIELDS = true ->
  run names boxes width height thr r = Some p ->
  (exists K,
     Permutation K (retained names boxes width height thr L) /\
     Sorted (key_le (fun it : zbox * Q => zy1 (fst it))) K /\
     (forall y, filter (fun it : zbox * Q => (zy1 (fst it) =? y)%Z) K =
                filter (fun it : zbox * Q => (zy1 (fst it) =? y)%Z)
                  (retained names boxes width height thr L)) /\
     dget (data p) L = Some (strip (join_space (map (text_of r) (filter (kept r) K))))) /\
  (NoDup (map (fun it : zbox * Q => zy1 (fst it)) (retained names boxes width height thr L)) ->
   forall boxes' p',
     Permutation boxes boxes' ->
     run names boxes' width height thr r = Some p' ->
     dget (data p') L = dget (data p) L).
Proof.
  intros HL Hrun.
  destruct (run_multiline_field names boxes width height thr r p L HL Hrun)
    as [texts [ycs [ocs [Hr [Hd _]]]]].
  destruct (recognize_boxes_spec r _ _ _ _ Hr) as [Ht _].
  split.
  - exists (sort_by_key (fun it : zbox * Q => zy1 (fst it))
                        (retained names boxes width height thr L)).
    split; [apply sort_stable_perm |].
    split; [apply sort_by_key_sorted |].
    split; [intros y; apply (sort_by_key_filter_eq (fun it : zbox * Q => zy1 (fst it))) |].
    rewrite Hd, Ht. reflexivity.
  - intros N boxes' p' P Hrun'.
    destruct (run_multiline_field names boxes' width height thr r p' L HL Hrun')
      as [texts' [ycs' [ocs' [Hr' [Hd' _]]]]].
    rewrite recognize_boxes_fold in Hr, Hr'.
    rewrite <- (sort_by_y1_perm_eq _ _ (retained_perm names _ _ width height thr L P) N) in Hr'.
    rewrite Hr in Hr'. injection Hr' as <- _ _.
    now rewrite Hd, Hd'.
Qed.

Lemma multiline_text_sorted_by_top_edge_witness :
  let boxes := [ex_box 10 50 (9 # 10) 0; ex_box 10 10 (8 # 10) 0] in
  let r := ex_ocr [(8%Z, 49%Z, PredTuple (Some "lower") (9 # 10));
                   (8%Z, 9%Z, PredTuple (Some "upper") (8 # 10))] in
  exists p, run ex_names boxes 200 100 (2 # 5) r = Some p /\
    dget (data p) "name" = Some "upper lower" /\
    ((exists K,
       Permutation K (retained ex_names boxes 200 100 (2 # 5) "name") /\
       Sorted (key_le (fun it : zbox * Q => zy1 (fst it))) K /\
       (forall y, filter (fun it : zbox * Q => (zy1 (fst it) =? y)%Z) K =
                  filter (fun it : zbox * Q => (zy1 (fst it) =? y)%Z)
                    (retained ex_names boxes 200 100 (2 # 5) "name")) /\
       dget (data p) "name" = Some (strip (join_space (map (text_of r) (filter (kept r) K))))) /\
     (NoDup (map (fun it : zbox * Q => zy1 (fst it)) (retained ex_names boxes 200 100 (2 # 5) "name")) ->
      forall boxes' p',
        Permutation boxes boxes' ->
        run ex_names boxes' 200 100 (2 # 5) r = Some p' ->
        dget (data p') "name" = dget (data p) "name")).
Proof.
  intros boxes r. eexists. split; [vm_compute; reflexivity |].
  split; [vm_compute; reflexivity |].
  apply (multiline_text_sorted_by_top_edge ex_names boxes 200 100 (2 # 5) r _ "name");
    vm_compute; reflexivity.
Defined.

(** ** Confidence aggregation *)

Lemma Qle_bool_comp a a' b b' : a == a' -> b == b' -> Qle_bool a b = Qle_bool a' b'.
Proof.
  intros Ha Hb. apply eq_true_iff_eq. rewrite !Qle_bool_iff, Ha, Hb. reflexivity.
Qed.

Lemma py_round_Q_comp x y : x == y -> py_round_Q x = py_round_Q y.
Proof.
  intros H. unfold py_round_Q. rewrite (Qfloor_comp x y H).
  assert (Hf : x - inject_Z (Qfloor y) == y - inject_Z (Qfloor y)) by (rewrite H; reflexivity).
  rewrite (Qle_bool_comp _ _ _ _ (Qeq_refl (1 # 2)) Hf).
  rewrite (Qle_bool_comp _ _ _ _ Hf (Qeq_refl (1 # 2))).
  reflexivity.
Qed.

Lemma round3_comp x y : x == y -> round3 x = round3 y.
Proof.
  intros H. unfold round3. rewrite (py_round_Q_comp (x * 1000) (y * 1000)); [reflexivity |].
  now rewrite H.
Qed.

Lemma fold_Qplus_comp l a b : a == b -> fold_left Qplus l a == fold_left Qplus l b.
Proof.
  revert a b. induction l as [| x l IH]; intros a b H; simpl; [exact H |].
  apply IH. now rewrite H.
Qed.

Lemma fold_Qplus_perm l l' : Permutation l l' ->
  forall a, fold_left Qplus l a == fold_left Qplus l' a.
Proof.
  induction 1 as [| x l l' _ IH | x y l | l l' l'' _ IH1 _ IH2]; intros a; simpl.
  - reflexivity.
  - apply IH.
  - apply fold_Qplus_comp. ring.
  - now rewrite IH1, IH2.
Qed.

Lemma mean_perm l l' : Permutation l l' -> mean l == mean l'.
Proof.
  intros P. unfold mean. rewrite (Permutation_length P).
  now rewrite (fold_Qplus_perm l l' P 0).
Qed.

Lemma sorted_kept_perm r R :
  Permutation (filter (kept r) (sort_by_key (fun it : zbox * Q => zy1 (fst it)) R))
              (filter (kept r) R).
Proof. apply filter_Permutation, sort_stable_perm. Qed.

(** C4 (counterexample): a retained "name" box of score 0.5 whose text
    is empty does not enter the detection confidence: the reported value
    is round(0.9, 3), not the mean 0.7 over both retained boxes. *)
Lemma multiline_detection_conf_skips_empty_text :
  let boxes := [ex_box 10 10 (9 # 10) 0; ex_box 10 50 (1 # 2) 0] in
  let r := ex_ocr [(8%Z, 9%Z, PredTuple (Some "A") (9 # 10));
                   (8%Z, 49%Z, PredTuple (Some "") 0)] in
  option_map (fun p => dget (yolo_confidence p) "name") (run ex_names boxes 200 100 (2 # 5) r)
    = Some (Some (round3 (9 # 10))) /\
  ~ (round3 (9 # 10) == round3 (mean (map snd (retained ex_names boxes 200 100 (2 # 5) "name")))).
Proof.
  intros boxes r. split; vm_compute; [reflexivity | discriminate].
Qed.

(** C4: for a multi-line field [L], both reported confidences are means
    over the retained boxes whose recognized text is non-empty (the
    detection scores, resp. the recognition confidences), rounded to 3
    decimals; they are 0 when no such box exists. *)
Theorem multiline_confidences_over_nonempty names boxes width height thr r p L :
  mem_str L MULTILINE_FIELDS = true ->
  run names boxes width height thr r = Some p ->
  let K := filter (kept r) (retained names boxes width height thr L) in
  dget (yolo_confidence p) L =
    Some (round3 (match K with [] => 0 | _ => mean (map snd K) end)) /\
  dget (ocr_confidence p) L =
    Some (round3 (match K with [] => 0 | _ => mean (map (ocr_of r) K) end)).
Proof.
  intros HL Hrun. cbv zeta.
  destruct (run_multiline_field names boxes width height thr r p L HL Hrun)
    as [texts [ycs [ocs [Hr [_ [Hy Ho]]]]]].
  destruct (recognize_boxes_spec r _ _ _ _ Hr) as [_ [Hyc Hoc]].
  rewrite Hy, Ho, Hyc, Hoc.
  pose proof (sorted_kept_perm r (retained names boxes width height thr L)) as P.
  remember (filter (kept r) (sort_by_key _ _)) as S eqn:ES.
  remember (filter (kept r) (retained names boxes width height thr L)) as K eqn:EK.
  clear ES EK.
  destruct S as [| s S'], K as [| k K'].
  - auto.
  - apply Permutation_nil in P. discriminate.
  - apply Permutation_sym, Permutation_nil in P. discriminate.
  - cbn [map].
    split; f_equal; apply round3_comp, mean_perm;
      exact (Permutation_map _ P).
Qed.

Lemma multiline_confidences_over_nonempty_witness :
  let boxes := [ex_box 10 10 (9 # 10) 0; ex_box 10 50 (1 # 2) 0] in
  let r := ex_ocr [(8%Z, 9%Z, PredTuple (Some "A") (9 # 10));
                   (8%Z, 49%Z, PredTuple (Some "") 0)] in
  exists p, run ex_names boxes 200 100 (2 # 5) r = Some p /\
    (let K := filter (kept r) (retained ex_names boxes 200 100 (2 # 5) "name") in
     dget (yolo_confidence p) "name" =
       Some (round3 (match K with [] => 0 | _ => mean (map snd K) end)) /\
     dget (ocr_confidence p) "name" =
       Some (round3 (match K with [] => 0 | _ => mean (map (ocr_of r) K) end))).
Proof.
  intros boxes r. eexists. split; [vm_compute; reflexivity |].
  apply (multiline_confidences_over_nonempty ex_names boxes 200 100 (2 # 5) r _ "name");
    vm_compute; reflexivity.
Defined.

(** ** Output schema *)

Lemma keys_map_keys {V} (keys : list string) (f : string -> V) :
  map fst (map (fun k => (k, f k)) keys) = keys.
Proof. rewrite map_map. simpl. apply map_id. Qed.

(** C3 (counterexample): a detection with the out-of-schema label
    "extra" is recognized and stored in [field_to_text], but the payload
    has no "extra" entry. *)
Lemma extra_label_dropped_from_payload :
  let boxes := [ex_box 10 10 (9 # 10) 0; ex_box 10 70 (9 # 10) 5] in
  let r := ex_ocr [(8%Z, 9%Z, PredTuple (Some "A") (9 # 10));
                   (8%Z, 69%Z, PredTuple (Some "X") (8 # 10))] in
  option_map (fun st => dget (field_to_text st) "extra")
    (run_state ex_names boxes 200 100 (2 # 5) r) = Some (Some "X") /\
  option_map (fun p => (dget (data p) "extra", dget (yolo_confidence p) "extra",
                        dget (ocr_confidence p) "extra"))
    (run ex_names boxes 200 100 (2 # 5) r) = Some (None, None, None).
Proof.
  intros boxes r. split; vm_compute; reflexivity.
Qed.

(** C3: the payload written by [run] has exactly the schema fields, in
    schema order, in each of its three maps; every schema field is
    present, and a label outside the schema has no entry. *)
Theorem payload_covers_exactly_schema names boxes width height thr r p :
  run names boxes width height thr r = Some p ->
  map fst (data p) = DESIRED_FIELDS /\
  map fst (yolo_confidence p) = DESIRED_FIELDS /\
  map fst (ocr_confidence p) = DESIRED_FIELDS /\
  (forall k, ~ In k DESIRED_FIELDS ->
     dget (data p) k = None /\ dget (yolo_confidence p) k = None /\
     dget (ocr_confidence p) k = None).
Proof.
  unfold run. destruct (run_state names boxes width height thr r) as [st |];
    [| discriminate].
  intros [= <-]. unfold make_payload; cbn [data yolo_confidence ocr_confidence].
  rewrite !keys_map_keys. repeat split; try reflexivity;
    apply dget_map_keys_notin; assumption.
Qed.

Lemma payload_covers_exactly_schema_witness :
  let boxes := [ex_box 10 10 (9 # 10) 0; ex_box 10 70 (9 # 10) 5] in
  let r := ex_ocr [(8%Z, 9%Z, PredTuple (Some "A") (9 # 10));
                   (8%Z, 69%Z, PredTuple (Some "X") (8 # 10))] in
  exists p, run ex_names boxes 200 100 (2 # 5) r = Some p /\
    (map fst (data p) = DESIRED_FIELDS /\
     map fst (yolo_confidence p) = DESIRED_FIELDS /\
     map fst (ocr_confidence p) = DESIRED_FIELDS /\
     (forall k, ~ In k DESIRED_FIELDS ->
        dget (data p) k = None /\ dget (yolo_confidence p) k = None /\
        dget (ocr_confidence p) k = None)).
Proof.
  intros boxes r. eexists. split; [vm_compute; reflexivity |].
  apply (payload_covers_exactly_schema ex_names boxes 200 100 (2 # 5) r).
  vm_compute; reflexivity.
Defined.

(** ** Recognition failures *)

Lemma fold_left_ext_pw {A B} (f g : A -> B -> A) l a :
  (forall x y, f x y = g x y) -> fold_left f l a = fold_left g l a.
Proof.
  intros H. revert a. induction l as [| y l IH]; intros a; simpl; [reflexivity |].
  rewrite H. apply IH.
Qed.

Lemma zbox_eqb_eq a b : zbox_eqb a b = true -> a = b.
Proof.
  destruct a, b. unfold zbox_eqb; cbn [zx1 zy1 zx2 zy2].
  rewrite !andb_true_iff, !Z.eqb_eq. intros [[[-> ->] ->] ->]. reflexivity.
Qed.

(** A box whose recognition raised or returned no text contributes
    nothing, exactly as a recognized empty text of confidence 0. *)
Lemma recognize_step_failure_ext r b :
  (r b = PredRaises \/ r b = PredPlain None \/ exists c, r b = PredTuple None c) ->
  forall acc it,
    recognize_step r acc it =
    recognize_step (fun b' => if zbox_eqb b' b then PredTuple (Some "") 0 else r b') acc it.
Proof.
  intros Hb [[[texts ycs] ocs] |] [bb cs]; [| reflexivity].
  unfold recognize_step.
  destruct (crop_fails bb); [reflexivity |].
  destruct (zbox_eqb bb b) eqn:E; [| reflexivity].
  apply zbox_eqb_eq in E. subst bb.
  destruct Hb as [-> | [-> | [c ->]]]; reflexivity.
Qed.

Lemma recognize_fold_None_iff r r' l a a' :
  fold_left (recognize_step r) l (Some a) = None <->
  fold_left (recognize_step r') l (Some a') = None.
Proof.
  revert a a'. induction l as [| [bb cs] l IH]; intros a a'; cbn [fold_left].
  - split; discriminate.
  - assert (Hs : forall r0 a0, crop_fails bb = false ->
                   exists a1, recognize_step r0 (Some a0) (bb, cs) = Some a1).
    { intros r0 [[t y] o] Hz. unfold recognize_step. rewrite Hz.
      destruct (predict_with_confidence (r0 bb)) as [[t0 |] oc];
        [destruct (truthy (Some t0)) |]; eexists; reflexivity. }
    destruct (crop_fails bb) eqn:Hz.
    + assert (H0 : forall r0 a0, recognize_step r0 (Some a0) (bb, cs) = None).
      { intros r0 [[t y] o]. unfold recognize_step. now rewrite Hz. }
      rewrite !H0, !recognize_fold_None. tauto.
    + destruct (Hs r a eq_refl) as [a1 ->]. destruct (Hs r' a' eq_refl) as [a1' ->]. apply IH.
Qed.

Lemma merge_fold_None_iff r r' es st st' :
  fold_left (merge_step r) es (Some st) = None <->
  fold_left (merge_step r') es (Some st') = None.
Proof.
  revert st st'. induction es as [| [lbl items] es IH]; intros st st'; cbn [fold_left].
  - split; discriminate.
  - assert (Hs : forall r0 st0,
              (recognize_boxes r0 items = None /\ merge_step r0 (Some st0) (lbl, items) = None) \/
              (recognize_boxes r0 items <> None \/ items = []) /\
              exists st1, merge_step r0 (Some st0) (lbl, items) = Some st1).
    { intros r0 st0. unfold merge_step.
      destruct items as [| it its]; [right; split; [now right | eexists; reflexivity] |].
      destruct (recognize_boxes r0 (it :: its)) as [[[texts ycs] ocs] |] eqn:Hr.
      - right. split; [left; discriminate |].
        destruct (mem_str lbl MULTILINE_FIELDS && negb (List.length ycs =? 0)%nat);
          [| destruct (negb (List.length ycs =? 0)%nat)]; eexists; reflexivity.
      - left. split; reflexivity. }
    assert (Hiff : recognize_boxes r items = None <-> recognize_boxes r' items = None).
    { rewrite !recognize_boxes_fold. apply recognize_fold_None_iff. }
    destruct (Hs r st) as [[Hn1 E1] | [Hn1 [st1 E1]]], (Hs r' st') as [[Hn2 E2] | [Hn2 [st2 E2]]];
      rewrite ?E1, ?E2, ?merge_fold_None.
    + tauto.
    + exfalso. destruct Hn2 as [Hn2 | ->]; [tauto | discriminate].
    + exfalso. destruct Hn1 as [Hn1 | ->]; [tauto | discriminate].
    + apply IH.
Qed.

(** C8: [predict_with_confidence] turns a raising recognizer into
    [("", 0.0)] and a recognizer returning [None] into [(None, 0.0)];
    when the recognition of box [b] raises or yields no text, [run]
    produces the same result as if [b] had been recognized as the empty
    string with confidence 0, so the other boxes and fields are handled
    unchanged; and whether a payload is produced does not depend on the
    recognizer at all. *)
Theorem recognition_failure_recovered names boxes width height thr r b
    (Hfail : r b = PredRaises \/ r b = PredPlain None \/ exists c, r b = PredTuple None c) :
  predict_with_confidence PredRaises = (Some "", 0) /\
  predict_with_confidence (PredPlain None) = (None, 0) /\
  run names boxes width height thr r =
    run names boxes width height thr
        (fun b' => if zbox_eqb b' b then PredTuple (Some "") 0 else r b') /\
  (forall r', run names boxes width height thr r = None <->
              run names boxes width height thr r' = None).
Proof.
  split; [reflexivity |]. split; [reflexivity |]. split.
  - unfold run, run_state. f_equal.
    apply fold_left_ext_pw. intros [st |] [lbl items]; [| reflexivity].
    unfold merge_step.
    rewrite !recognize_boxes_fold.
    rewrite (fold_left_ext_pw _ _ _ _ (recognize_step_failure_ext r b Hfail)).
    reflexivity.
  - intros r'. unfold run, run_state.
    set (st0 := fold_left (collect_step names width height thr) boxes init_state).
    pose proof (merge_fold_None_iff r r' (field_to_bboxes st0) st0 st0) as H.
    destruct (fold_left (merge_step r) (field_to_bboxes st0) (Some st0)),
             (fold_left (merge_step r') (field_to_bboxes st0) (Some st0));
      cbn [option_map]; [split; discriminate | | | tauto];
      exfalso; destruct H as [H1 H2]; discriminate (H1 eq_refl) || discriminate (H2 eq_refl).
Qed.

Lemma recognition_failure_recovered_witness :
  let boxes := [ex_box 10 10 (9 # 10) 0; ex_box 10 50 (8 # 10) 0] in
  let r := ex_ocr [(8%Z, 9%Z, PredTuple (Some "A") (9 # 10)); (8%Z, 49%Z, PredRaises)] in
  let b := ZBox 8 49 51 70 in
  r b = PredRaises /\
  option_map (fun p => dget (data p) "name") (run ex_names boxes 200 100 (2 # 5) r)
    = Some (Some "A") /\
  (predict_with_confidence PredRaises = (Some "", 0) /\
   predict_with_confidence (PredPlain None) = (None, 0) /\
   run ex_names boxes 200 100 (2 # 5) r =
     run ex_names boxes 200 100 (2 # 5)
         (fun b' => if zbox_eqb b' b then PredTuple (Some "") 0 else r b') /\
   (forall r', run ex_names boxes 200 100 (2 # 5) r = None <->
               run ex_names boxes 200 100 (2 # 5) r' = None)).
Proof.
  intros boxes r b. split; [reflexivity |]. split; [vm_compute; reflexivity |].
  apply (recognition_failure_recovered ex_names boxes 200 100 (2 # 5) r b).
  left. reflexivity.
Defined.

Lemma order_corners_sum_diff_extremes_witness :
  let pts := [(0, 0); (10, 0); (10, 10); (0, 10)] in
  List.length pts = 4%nat /\
  exists tl tr br bl,
    _order_corners_robust pts = Ok [tl; tr; br; bl] /\
    In tl pts /\ In tr pts /\ In br pts /\ In bl pts /\
    forall q, In q pts ->
      psum tl <= psum q /\ psum q <= psum br /\
      fst q - snd q <= fst tr - snd tr /\ fst bl - snd bl <= fst q - snd q.
Proof.
  intros pts. split; [reflexivity |].
  apply (proj2 (order_corners_sum_diff_extremes pts)). reflexivity.
Defined.

(* ================================================================== *)
(** * Further properties of the stages *)

(** ** Box clamping and padding *)

Lemma pymax_ge_r a b : b <= pymax a b.
Proof.
  unfold pymax. destruct (Qle_bool b a) eqn:E; [now apply Qle_bool_iff | apply Qle_refl].
Qed.

Lemma pymax_lub a b c : a <= c -> b <= c -> pymax a b <= c.
Proof. unfold pymax. destruct (Qle_bool b a); auto. Qed.

Lemma pymin_glb c a b : c <= a -> c <= b -> c <= pymin a b.
Proof. unfold pymin. destruct (Qle_bool a b); auto. Qed.

Lemma Qle_bool_false a b : b < a -> Qle_bool a b = false.
Proof.
  intros H. destruct (Qle_bool a b) eqn:E; [| reflexivity].
  apply Qle_bool_iff in E. lra.
Qed.

(** [max(0, min(v, m))] is [v] for [v] already in [[0, m]]. *)
Lemma clamp_coord_id v m : 0 <= v -> v <= m -> pymax 0 (pymin v m) == v.
Proof.
  intros H0 Hm. pose proof (pymin_le_l v m). pose proof (pymin_glb v v m (Qle_refl v) Hm).
  pose proof (pymax_ge_r 0 (pymin v m)).
  pose proof (pymax_lub 0 (pymin v m) v H0 ltac:(lra)). lra.
Qed.

Lemma inject_Z_le_iff a b : (a <= b)%Z <-> inject_Z a <= inject_Z b.
Proof. rewrite Zle_Qle. reflexivity. Qed.

Lemma inject_Z_lt_iff a b : (a < b)%Z <-> inject_Z a < inject_Z b.
Proof. rewrite Zlt_Qlt. reflexivity. Qed.

(** [clamp_bbox] returns an integer box that already lies inside the
    image, with [x1 < x2] and [y1 < y2], unchanged. *)
Theorem clamp_bbox_keeps_inner_box x1 y1 x2 y2 width height :
  (0 <= x1 < x2)%Z -> (x2 <= width - 1)%Z ->
  (0 <= y1 < y2)%Z -> (y2 <= height - 1)%Z ->
  clamp_bbox (QBox (inject_Z x1) (inject_Z y1) (inject_Z x2) (inject_Z y2)) width height
  = ZBox x1 y1 x2 y2.
Proof.
  intros [Hx0 Hx] Hxw [Hy0 Hy] Hyh.
  assert (C : forall v m, (0 <= v <= m)%Z ->
            pymax 0 (pymin (inject_Z v) (inject_Z m)) == inject_Z v).
  { intros v m [H1 H2]. apply clamp_coord_id.
    - unfold Qle; simpl; lia.
    - unfold Qle; simpl; lia. }
  unfold clamp_bbox; cbn [qx1 qy1 qx2 qy2].
  pose proof (C x1 (width - 1)%Z ltac:(lia)) as A1.
  pose proof (C x2 (width - 1)%Z ltac:(lia)) as A2.
  pose proof (C y1 (height - 1)%Z ltac:(lia)) as B1.
  pose proof (C y2 (height - 1)%Z ltac:(lia)) as B2.
  rewrite (Qle_bool_comp _ _ _ _ A2 A1), (Qle_bool_comp _ _ _ _ B2 B1).
  rewrite (Qle_bool_false _ _ (proj1 (inject_Z_lt_iff _ _) Hx)).
  rewrite (Qle_bool_false _ _ (proj1 (inject_Z_lt_iff _ _) Hy)).
  unfold to_int32.
  rewrite (Qfloor_comp _ _ A1), (Qfloor_comp _ _ A2), (Qfloor_comp _ _ B1),
    (Qfloor_comp _ _ B2), !Qfloor_Z.
  reflexivity.
Qed.

Lemma clamp_bbox_keeps_inner_box_witness :
  (0 <= 10 < 50)%Z /\ (50 <= 200 - 1)%Z /\ (0 <= 5 < 30)%Z /\ (30 <= 100 - 1)%Z /\
  clamp_bbox (QBox (inject_Z 10) (inject_Z 5) (inject_Z 50) (inject_Z 30)) 200 100
  = ZBox 10 5 50 30.
Proof.
  split; [lia |]. split; [lia |]. split; [lia |]. split; [lia |].
  apply clamp_bbox_keeps_inner_box; lia.
Defined.

(** One axis of [pad_bbox] on a span [[v1, v2]] inside [[0, m]]. *)
Lemma pad_axis_contains v1 v2 m : 0 <= v1 -> v1 < v2 -> v2 <= m ->
  let p := (v2 - v1) * pad_ratio_default in
  let a := pymax 0 (pymin (v1 - p) m) in
  let c := pymax 0 (pymin (v2 + p) m) in
  let c' := if Qle_bool c a then pymin m (a + 1) else c in
  inject_Z (to_int32 a) <= v1 /\ (Qfloor v2 <= to_int32 c')%Z.
Proof.
  intros H0 H12 Hm p a c c'.
  assert (Hp : 0 <= p) by (unfold p, pad_ratio_default; lra).
  assert (Ha : a <= v1).
  { apply pymax_lub; [exact H0 |]. pose proof (pymin_le_l (v1 - p) m). lra. }
  assert (Hc : v2 <= c).
  { eapply Qle_trans; [| apply pymax_ge_r]. apply pymin_glb; lra. }
  assert (Hc' : c' = c) by (unfold c'; now rewrite Qle_bool_false by lra).
  rewrite Hc'. unfold to_int32. split.
  - eapply Qle_trans; [apply Qfloor_le | exact Ha].
  - now apply Qfloor_resp_le.
Qed.

(** [pad_bbox] never cuts into a box lying inside the image: the padded
    box starts at or before the box's left and top edges and ends at or
    after the integer part of its right and bottom edges. *)
Theorem pad_bbox_contains_box b width height :
  0 <= qx1 b -> qx1 b < qx2 b -> qx2 b <= inject_Z (width - 1) ->
  0 <= qy1 b -> qy1 b < qy2 b -> qy2 b <= inject_Z (height - 1) ->
  let r := pad_bbox b width height in
  inject_Z (zx1 r) <= qx1 b /\ (Qfloor (qx2 b) <= zx2 r)%Z /\
  inject_Z (zy1 r) <= qy1 b /\ (Qfloor (qy2 b) <= zy2 r)%Z.
Proof.
  intros X0 X12 Xm Y0 Y12 Ym r.
  destruct (pad_axis_contains _ _ _ X0 X12 Xm) as [A1 A2].
  destruct (pad_axis_contains _ _ _ Y0 Y12 Ym) as [B1 B2].
  exact (conj A1 (conj A2 (conj B1 B2))).
Qed.

Lemma pad_bbox_contains_box_witness :
  let b := QBox (21 # 2) 5 50 (61 # 2) in
  let r := pad_bbox b 200 100 in
  (inject_Z (zx1 r) <= qx1 b /\ (Qfloor (qx2 b) <= zx2 r)%Z /\
   inject_Z (zy1 r) <= qy1 b /\ (Qfloor (qy2 b) <= zy2 r)%Z).
Proof.
  intros b r. apply pad_bbox_contains_box; vm_compute; try discriminate; reflexivity.
Defined.

(** ** Label normalisation *)

Lemma str_map_map f g s : str_map f (str_map g s) = str_map (fun c => f (g c)) s.
Proof. induction s as [| c s IH]; simpl; congruence. Qed.

Lemma str_map_ext f g s : (forall c, f c = g c) -> str_map f s = str_map g s.
Proof. intros H. induction s as [| c s IH]; simpl; congruence. Qed.

Lemma str_exists_map_false f g s :
  (forall c, f (g c) = false) -> str_exists f (str_map g s) = false.
Proof. intros H. induction s as [| c s IH]; simpl; [reflexivity |]. now rewrite H, IH. Qed.

Lemma normalize_label_chars s : _normalize_label s = str_map normalize_char s.
Proof. unfold _normalize_label. rewrite str_map_map. reflexivity. Qed.

Lemma normalize_char_idem c : normalize_char (normalize_char c) = normalize_char c.
Proof. destruct c as [[] [] [] [] [] [] [] []]; reflexivity. Qed.

Lemma normalize_char_clean c :
  let n := Ascii.nat_of_ascii (normalize_char c) in
  ((65 <=? n) && (n <=? 90) || (n =? 32) || (n =? 95))%nat = false.
Proof. destruct c as [[] [] [] [] [] [] [] []]; reflexivity. Qed.

(** [_normalize_label] is idempotent, and its result holds no upper-case
    ASCII letter, no space and no underscore. *)
Theorem normalize_label_idempotent_clean (name : string) :
  _normalize_label (_normalize_label name) = _normalize_label name /\
  str_exists (fun c => let n := Ascii.nat_of_ascii c in
                       ((65 <=? n) && (n <=? 90) || (n =? 32) || (n =? 95))%nat)
             (_normalize_label name) = false.
Proof.
  rewrite !normalize_label_chars. split.
  - rewrite str_map_map. apply str_map_ext. apply normalize_char_idem.
  - apply str_exists_map_false. intros c. exact (normalize_char_clean c).
Qed.

(** ** Corner detection *)

Section GenSort.
Context {A : Type} (before : A -> A -> bool) (R : A -> A -> Prop).
Hypothesis before_true : forall x y, before y x = true -> R y x.
Hypothesis before_false : forall x y, before y x = false -> R x y.

Lemma insert_gen_HdRel y x l :
  R y x -> HdRel R y l -> HdRel R y (insert_stable before x l).
Proof.
  intros Hyx Hl. destruct l as [| z l]; simpl.
  - now constructor.
  - destruct (before z x); constructor; [now inversion Hl | exact Hyx].
Qed.

Lemma insert_gen_sorted x l : Sorted R l -> Sorted R (insert_stable before x l).
Proof.
  induction l as [| y l IH]; intros Hs; simpl.
  - repeat constructor.
  - inversion Hs as [| ? ? Hs' Hhd]; subst.
    destruct (before y x) eqn:E.
    + constructor; [now apply IH |]. apply insert_gen_HdRel; [now apply before_true | exact Hhd].
    + constructor; [exact Hs |]. constructor. now apply before_false.
Qed.

Lemma sort_stable_sorted l : Sorted R (sort_stable before l).
Proof.
  unfold sort_stable.
  assert (H : forall acc, Sorted R acc ->
            Sorted R (fold_left (fun acc x => insert_stable before x acc) l acc)).
  { induction l as [| x l IH]; intros acc Hacc; simpl; [exact Hacc |].
    apply IH. now apply insert_gen_sorted. }
  apply H. constructor.
Qed.
End GenSort.

Lemma StronglySorted_firstn_skipn {A} (R : A -> A -> Prop) n l :
  StronglySorted R l ->
  forall x y, In x (firstn n l) -> In y (skipn n l) -> R x y.
Proof.
  revert l. induction n as [| n IH]; intros l Hs x y Hx Hy; [destruct Hx |].
  destruct l as [| a l]; [destruct Hx |].
  inversion Hs as [| ? ? Hs' Hf]; subst. cbn [firstn skipn] in Hx, Hy.
  destruct Hx as [<- | Hx].
  - rewrite Forall_forall in Hf. apply Hf.
    rewrite <- (firstn_skipn n l). apply in_or_app. now right.
  - exact (IH l Hs' x y Hx Hy).
Qed.

Lemma detect_fold_filter names thr boxes st :
  fold_left (detect_step names thr) (filter (fun d => Qle_bool thr (det_conf d)) boxes) st =
  fold_left (detect_step names thr) boxes st.
Proof.
  revert st. induction boxes as [| d boxes IH]; intros st; cbn [filter fold_left];
    [reflexivity |].
  destruct (Qle_bool thr (det_conf d)) eqn:E; cbn [fold_left].
  - apply IH.
  - replace (detect_step names thr st d) with st; [apply IH |].
    unfold detect_step. destruct st. now rewrite E.
Qed.

(** [detect_points] ignores every box whose confidence is below
    [conf_thres]: dropping those boxes beforehand changes neither the
    emblem nor the corners it returns. *)
Theorem detect_points_ignores_low_conf names boxes conf_thres :
  detect_points names (filter (fun d => Qle_bool conf_thres (det_conf d)) boxes) conf_thres =
  detect_points names boxes conf_thres.
Proof. unfold detect_points. now rewrite detect_fold_filter. Qed.

(** [detect_points] returns at most 4 corners; when more than 4 corner
    boxes pass the threshold, the 4 kept are ones of highest confidence:
    none of the dropped corners has a higher confidence than a kept one. *)
Theorem detect_points_top4_by_conf names boxes conf_thres :
  let cs := fst (fold_left (detect_step names conf_thres) boxes ([], None)) in
  (List.length (snd (detect_points names boxes conf_thres)) <= 4)%nat /\
  ((4 < List.length cs)%nat ->
   exists kept dropped,
     Permutation cs (kept ++ dropped)%list /\ List.length kept = 4%nat /\
     snd (detect_points names boxes conf_thres) = map fst kept /\
     forall k d, In k kept -> In d dropped -> snd d <= snd k).
Proof.
  intros cs. unfold detect_points.
  destruct (fold_left (detect_step names conf_thres) boxes ([], None)) as [cs0 em] eqn:Ef.
  cbn [fst] in cs. subst cs. cbn [snd].
  set (S := sort_by_key_desc snd cs0).
  assert (HP : Permutation S cs0) by apply sort_stable_perm.
  assert (HS : StronglySorted (fun a b : point * Q => snd b <= snd a) S).
  { apply Sorted_StronglySorted; [intros a b c; lra |].
    apply (sort_stable_sorted (fun y x : point * Q => Qle_bool (snd x) (snd y))).
    - intros x y H. now apply Qle_bool_iff.
    - intros x y H. apply Qlt_le_weak, Qnot_le_lt. intros H'.
      apply Qle_bool_iff in H'. congruence. }
  split.
  - destruct (4 <? List.length cs0)%nat eqn:E; rewrite length_map.
    + apply firstn_le_length.
    + apply Nat.ltb_ge in E. exact E.
  - intros Hlt. apply Nat.ltb_lt in Hlt as Hlt'. rewrite Hlt'.
    exists (firstn 4 S), (skipn 4 S). split; [| split; [| split]].
    + rewrite firstn_skipn. now apply Permutation_sym.
    + apply firstn_length_le. rewrite (Permutation_length HP). lia.
    + reflexivity.
    + intros k d Hk Hd. exact (StronglySorted_firstn_skipn _ 4 S HS k d Hk Hd).
Qed.

(** ** Corner ordering on an upright card *)

Lemma extreme_unique_min (f : point -> Q) (pts rect : list point) r m :
  Permutation pts rect -> In r pts -> In m rect ->
  (forall q, In q rect -> q = m \/ f m < f q) ->
  (forall q, In q pts -> f r <= f q) -> r = m.
Proof.
  intros P Hr Hm Hu Hmin.
  destruct (Hu r (Permutation_in _ P Hr)) as [-> | Hlt]; [reflexivity |].
  exfalso. pose proof (Hmin m (Permutation_in _ (Permutation_sym P) Hm)). lra.
Qed.

Lemma extreme_unique_max (f : point -> Q) (pts rect : list point) r m :
  Permutation pts rect -> In r pts -> In m rect ->
  (forall q, In q rect -> q = m \/ f q < f m) ->
  (forall q, In q pts -> f q <= f r) -> r = m.
Proof.
  intros P Hr Hm Hu Hmax.
  destruct (Hu r (Permutation_in _ P Hr)) as [-> | Hlt]; [reflexivity |].
  exfalso. pose proof (Hmax m (Permutation_in _ (Permutation_sym P) Hm)). lra.
Qed.

(** [_order_corners_robust] orders the corners of an upright
    (axis-aligned) rectangle correctly whatever the order in which they
    are given: [[tl, tr, br, bl]] = [[(a,b), (c,b), (c,d), (a,d)]]. *)
Theorem order_corners_upright_rectangle (pts : list point) (a b c d : Q) :
  a < c -> b < d ->
  Permutation pts [(a, b); (c, b); (c, d); (a, d)] ->
  _order_corners_robust pts = Ok [(a, b); (c, b); (c, d); (a, d)].
Proof.
  intros Hac Hbd P.
  pose proof (Permutation_length P) as Hlen.
  destruct pts as [| p0 [| p1 [| p2 [| p3 [| p4 ps]]]]]; try discriminate Hlen.
  cbn [_order_corners_robust].
  destruct (argmin_pt_spec psum p0 [p1; p2; p3]) as [I1 M1].
  destruct (argmax_pt_spec psum p0 [p1; p2; p3]) as [I2 M2].
  destruct (argmin_pt_spec pdiff p0 [p1; p2; p3]) as [I3 M3].
  destruct (argmax_pt_spec pdiff p0 [p1; p2; p3]) as [I4 M4].
  rewrite (extreme_unique_min psum _ _ _ (a, b) P I1 ltac:(simpl; tauto)),
          (extreme_unique_max psum _ _ _ (c, d) P I2 ltac:(simpl; tauto)),
          (extreme_unique_min pdiff _ _ _ (c, b) P I3 ltac:(simpl; tauto)),
          (extreme_unique_max pdiff _ _ _ (a, d) P I4 ltac:(simpl; tauto));
    try assumption; try reflexivity;
    intros q Hq; destruct Hq as [<- | [<- | [<- | [<- | []]]]];
    solve [left; reflexivity | right; unfold psum, pdiff; simpl; lra].
Qed.

Lemma order_corners_upright_rectangle_witness :
  (0 < 10) /\ (0 < 5) /\
  Permutation [(10, 5); (0, 0); (0, 5); (10, 0)] [(0, 0); (10, 0); (10, 5); (0, 5)] /\
  _order_corners_robust [(10, 5); (0, 0); (0, 5); (10, 0)] =
    Ok [(0, 0); (10, 0); (10, 5); (0, 5)].
Proof.
  assert (P : Permutation [(10, 5); (0, 0); (0, 5); (10, 0)]
                          [(0, 0); (10, 0); (10, 5); (0, 5)]).
  { eapply perm_trans; [apply perm_swap |]. apply perm_skip.
    exact (Permutation_app_comm [(10, 5); (0, 5)] [(10, 0)]). }
  split; [reflexivity |]. split; [reflexivity |]. split; [exact P |].
  apply order_corners_upright_rectangle; [reflexivity | reflexivity | exact P].
Defined.

(** ** Quad inflation *)

(** ** Padding to the card aspect ratio *)

Lemma py_round_Q_ge n q : inject_Z n <= q -> (n <= py_round_Q q)%Z.
Proof.
  intros H. assert (Hf : (n <= Qfloor q)%Z).
  { rewrite <- (Qfloor_Z n). now apply Qfloor_resp_le. }
  unfold py_round_Q.
  destruct (negb _); [lia |]. destruct (negb _); [lia |]. destruct (Z.even _); lia.
Qed.

(** Python's [round] is within [1/2] of its argument. *)
Lemma py_round_Q_close q : Qabs (inject_Z (py_round_Q q) - q) <= 1 # 2.
Proof.
  pose proof (Qfloor_le q) as F1. pose proof (Qlt_floor q) as F2.
  rewrite inject_Z_plus in F2. change (inject_Z 1) with 1 in F2.
  apply Qabs_Qle_condition. unfold py_round_Q.
  set (f := Qfloor q) in *.
  destruct (Qle_bool (1 # 2) (q - inject_Z f)) eqn:E1; cbn [negb].
  - apply Qle_bool_iff in E1.
    destruct (Qle_bool (q - inject_Z f) (1 # 2)) eqn:E2; cbn [negb].
    + apply Qle_bool_iff in E2.
      destruct (Z.even f); [lra |]. rewrite inject_Z_plus. change (inject_Z 1) with 1. lra.
    + assert (~ (q - inject_Z f <= 1 # 2)) by (intro H; apply Qle_bool_iff in H; congruence).
      rewrite inject_Z_plus. change (inject_Z 1) with 1. lra.
  - assert (~ (1 # 2 <= q - inject_Z f)) by (intro H; apply Qle_bool_iff in H; congruence).
    lra.
Qed.

Lemma div_lt_mul a b c : 0 < b -> a / b < c -> a < b * c.
Proof.
  intros Hb H. destruct (Qlt_le_dec a (b * c)) as [| Hle]; [assumption |].
  exfalso. assert (c <= a / b) by (apply Qle_shift_div_l; [exact Hb | rewrite Qmult_comm; exact Hle]).
  lra.
Qed.

Lemma le_div_mul a b c : 0 < b -> c <= a / b -> b * c <= a.
Proof.
  intros Hb H. destruct (Qlt_le_dec a (b * c)) as [Hlt |]; [| assumption].
  exfalso. assert (a / b < c) by (apply Qlt_shift_div_r; [exact Hb | rewrite Qmult_comm; exact Hlt]).
  lra.
Qed.

Lemma half_split p : (0 <= p)%Z -> (0 <= p / 2 /\ p / 2 <= p - p / 2 /\ p - p / 2 <= p / 2 + 1)%Z.
Proof.
  intros H. pose proof (Z.div_mod p 2 ltac:(lia)). pose proof (Z.mod_pos_bound p 2 ltac:(lia)).
  lia.
Qed.

(** For a positive target aspect [t] and an image of shape [(h, w)] with
    [h >= 1], whose aspect is [cur = w / h]: when [|cur - t| < 0.001],
    [_pad_to_aspect] returns the image unchanged; otherwise, when
    [cur < t] it only adds replicated border columns, split evenly with
    the odd one on the right, up to the width [round(h * t)], and when
    [cur >= t] it only adds border rows, split evenly with the odd one at
    the bottom, up to the height [round(w / t)]; the new side is within
    half a pixel of the exact target size. *)
Theorem pad_to_aspect_shape (E : crop_env) (image : img E) (t : Q) (h w : Z) :
  img_shape E image = (h, w) -> (1 <= h)%Z -> (0 <= w)%Z -> 0 < t ->
  let cur := inject_Z w / inject_Z h in
  (Qabs (cur - t) < 1 # 1000 -> _pad_to_aspect E image (Some t) = image) /\
  (1 # 1000 <= Qabs (cur - t) -> cur < t ->
   exists l r, _pad_to_aspect E image (Some t) = copyMakeBorder E image 0 0 l r /\
     (0 <= l /\ l <= r /\ r <= l + 1)%Z /\
     Qabs (inject_Z (w + l + r) - inject_Z h * t) <= 1 # 2) /\
  (1 # 1000 <= Qabs (cur - t) -> t <= cur ->
   exists tp bt, _pad_to_aspect E image (Some t) = copyMakeBorder E image tp bt 0 0 /\
     (0 <= tp /\ tp <= bt /\ bt <= tp + 1)%Z /\
     Qabs (inject_Z (h + tp + bt) - inject_Z w / t) <= 1 # 2).
Proof.
  intros Hs Hh Hw Ht cur. unfold _pad_to_aspect.
  rewrite (Qle_bool_false _ _ Ht), Hs.
  replace (Z.max h 1) with h by lia. fold cur.
  assert (Hhq : 0 < inject_Z h) by (unfold Qlt; simpl; lia).
  split; [| split].
  - intros Hc. now rewrite (Qle_bool_false _ _ Hc).
  - intros Hc E2'. apply Qle_bool_iff in Hc. rewrite Hc. cbn [negb].
    rewrite (Qle_bool_false _ _ E2'). cbn [negb].
    set (new_w := py_round_Q (inject_Z h * t)).
    assert (Hge : (w <= new_w)%Z).
    { apply py_round_Q_ge. apply Qlt_le_weak. now apply div_lt_mul. }
    replace (Z.max (new_w - w) 0) with (new_w - w)%Z by lia.
    exists ((new_w - w) / 2)%Z, (new_w - w - (new_w - w) / 2)%Z.
    split; [reflexivity |]. split; [apply half_split; lia |].
    replace (w + (new_w - w) / 2 + (new_w - w - (new_w - w) / 2))%Z with new_w by lia.
    apply py_round_Q_close.
  - intros Hc E2. apply Qle_bool_iff in Hc. rewrite Hc. cbn [negb].
    assert (E2b : Qle_bool t cur = true) by now apply Qle_bool_iff.
    rewrite E2b. cbn [negb].
    set (new_h := py_round_Q (inject_Z w / t)).
    assert (Hge : (h <= new_h)%Z).
    { apply py_round_Q_ge. apply Qle_shift_div_l; [exact Ht |].
      now apply le_div_mul. }
    replace (Z.max (new_h - h) 0) with (new_h - h)%Z by lia.
    exists ((new_h - h) / 2)%Z, (new_h - h - (new_h - h) / 2)%Z.
    split; [reflexivity |]. split; [apply half_split; lia |].
    replace (h + (new_h - h) / 2 + (new_h - h - (new_h - h) / 2))%Z with new_h by lia.
    apply py_round_Q_close.
Qed.

Lemma pad_to_aspect_shape_witness :
  img_shape toy_env (50, 80)%Z = (50, 80)%Z /\ (1 <= 50)%Z /\ (0 <= 80)%Z /\ 0 < 317 # 200 /\
  let cur := inject_Z 80 / inject_Z 50 in
  (Qabs (cur - (317 # 200)) < 1 # 1000 ->
   _pad_to_aspect toy_env (50, 80)%Z (Some (317 # 200)) = (50, 80)%Z) /\
  (1 # 1000 <= Qabs (cur - (317 # 200)) -> cur < 317 # 200 ->
   exists l r, _pad_to_aspect toy_env (50, 80)%Z (Some (317 # 200)) =
               copyMakeBorder toy_env (50, 80)%Z 0 0 l r /\
     (0 <= l /\ l <= r /\ r <= l + 1)%Z /\
     Qabs (inject_Z (80 + l + r) - inject_Z 50 * (317 # 200)) <= 1 # 2) /\
  (1 # 1000 <= Qabs (cur - (317 # 200)) -> 317 # 200 <= cur ->
   exists tp bt, _pad_to_aspect toy_env (50, 80)%Z (Some (317 # 200)) =
                 copyMakeBorder toy_env (50, 80)%Z tp bt 0 0 /\
     (0 <= tp /\ tp <= bt /\ bt <= tp + 1)%Z /\
     Qabs (inject_Z (50 + tp + bt) - inject_Z 80 / (317 # 200)) <= 1 # 2).
Proof.
  split; [reflexivity |]. split; [lia |]. split; [lia |]. split; [reflexivity |].
  exact (pad_to_aspect_shape toy_env (50, 80)%Z (317 # 200) 50 80 eq_refl
           ltac:(lia) ltac:(lia) eq_refl).
Defined.

(** ** Landmark orientation *)

Lemma quadrant_iff px py width height :
  quadrant px py width height = true <->
  px < inject_Z width / 2 /\ py < inject_Z height / 2.
Proof.
  unfold quadrant. rewrite andb_true_iff, !negb_true_iff.
  split; intros [H1 H2]; split.
  - apply Qnot_le_lt. intro H. apply Qle_bool_iff in H. congruence.
  - apply Qnot_le_lt. intro H. apply Qle_bool_iff in H. congruence.
  - now apply Qle_bool_false.
  - now apply Qle_bool_false.
Qed.

Lemma Qneq_lt_gt a b : ~ (a == b) -> a < b \/ b < a.
Proof. intros H. destruct (Q_dec a b) as [[| ] | ]; auto. contradiction. Qed.

(** For a landmark off the two centre lines of the image ([x <> w/2]
    and [y <> h/2]), [_rotate_to_place_point_top_left] always returns a
    rotation that brings the landmark into the top-left quadrant of the
    rotated image, using the coordinates the code gives each rotation
    (the untested 270-degree case included). *)
Theorem rotate_landmark_off_center_top_left (E : crop_env) (image : img E) (x y : Q) (h w : Z) :
  img_shape E image = (h, w) -> ~ (x == inject_Z w / 2) -> ~ (y == inject_Z h / 2) ->
  let res := _rotate_to_place_point_top_left E image (Some (x, y)) in
  (res = image /\ quadrant x y w h = true) \/
  (res = rotate E ROTATE_90_CLOCKWISE image /\ quadrant (inject_Z h - y) x h w = true) \/
  (res = rotate E ROTATE_180 image /\ quadrant (inject_Z w - x) (inject_Z h - y) w h = true) \/
  (res = rotate E ROTATE_90_COUNTERCLOCKWISE image /\ quadrant y (inject_Z w - x) h w = true).
Proof.
  intros Hs Hx Hy res. unfold res, _rotate_to_place_point_top_left. rewrite Hs.
  destruct (quadrant x y w h) eqn:Q0; [now left |].
  destruct (quadrant (inject_Z h - y) x h w) eqn:Q1; [right; now left |].
  destruct (quadrant (inject_Z w - x) (inject_Z h - y) w h) eqn:Q2; [right; right; now left |].
  right; right; right. split; [reflexivity |].
  apply quadrant_iff.
  assert (N0 : ~ (x < inject_Z w / 2 /\ y < inject_Z h / 2))
    by (rewrite <- quadrant_iff; congruence).
  assert (N1 : ~ (inject_Z h - y < inject_Z h / 2 /\ x < inject_Z w / 2))
    by (rewrite <- quadrant_iff; congruence).
  assert (N2 : ~ (inject_Z w - x < inject_Z w / 2 /\ inject_Z h - y < inject_Z h / 2))
    by (rewrite <- quadrant_iff; congruence).
  set (W := inject_Z w) in *. set (H := inject_Z h) in *.
  change (W / 2) with (W * (1 # 2)) in *. change (H / 2) with (H * (1 # 2)) in *.
  destruct (Qneq_lt_gt _ _ Hx) as [X | X], (Qneq_lt_gt _ _ Hy) as [Y | Y].
  - exfalso. apply N0. split; assumption.
  - exfalso. apply N1. split; [clear - Y; lra | assumption].
  - clear - X Y. split; lra.
  - exfalso. apply N2. clear - X Y. split; lra.
Qed.

Lemma rotate_landmark_off_center_top_left_witness :
  img_shape toy_env (50, 80)%Z = (50, 80)%Z /\ ~ (70 == inject_Z 80 / 2) /\ ~ (10 == inject_Z 50 / 2) /\
  let res := _rotate_to_place_point_top_left toy_env (50, 80)%Z (Some (70, 10)) in
  (res = (50, 80)%Z /\ quadrant 70 10 80 50 = true) \/
  (res = rotate toy_env ROTATE_90_CLOCKWISE (50, 80)%Z /\
     quadrant (inject_Z 50 - 10) 70 50 80 = true) \/
  (res = rotate toy_env ROTATE_180 (50, 80)%Z /\
     quadrant (inject_Z 80 - 70) (inject_Z 50 - 10) 80 50 = true) \/
  (res = rotate toy_env ROTATE_90_COUNTERCLOCKWISE (50, 80)%Z /\
     quadrant 10 (inject_Z 80 - 70) 50 80 = true).
Proof.
  split; [reflexivity |].
  assert (N1 : ~ (70 == inject_Z 80 / 2)) by (vm_compute; discriminate).
  assert (N2 : ~ (10 == inject_Z 50 / 2)) by (vm_compute; discriminate).
  split; [exact N1 |]. split; [exact N2 |].
  exact (rotate_landmark_off_center_top_left toy_env (50, 80)%Z 70 10 50 80 eq_refl N1 N2).
Defined.

(** ** Outcome of [crop_cccd] once enough corners are found *)

Lemma detect_points_corner_count names boxes conf_thres :
  List.length (snd (detect_points names boxes conf_thres)) =
  Nat.min 4 (count_passing_corners names boxes conf_thres).
Proof.
  unfold detect_points.
  pose proof (detect_fold_corners names conf_thres boxes [] None) as Hl.
  destruct (fold_left (detect_step names conf_thres) boxes ([], None)) as [cs em].
  cbn [fst List.length] in Hl. cbn [snd]. rewrite length_map.
  destruct (4 <? List.length cs)%nat eqn:E4.
  - apply Nat.ltb_lt in E4. rewrite firstn_length_le.
    + lia.
    + unfold sort_by_key_desc. rewrite (Permutation_length (sort_stable_perm _ cs)). lia.
  - apply Nat.ltb_ge in E4. lia.
Qed.

Lemma complete_fourth_corner_length corners :
  (3 <= List.length corners <= 4)%nat ->
  List.length (complete_fourth_corner corners) = 4%nat.
Proof.
  intros H. unfold complete_fourth_corner.
  destruct (List.length corners =? 3)%nat eqn:E3.
  - apply Nat.eqb_eq in E3.
    destruct (max_pair _ _) as [[i j] m].
    rewrite length_app. simpl. lia.
  - apply Nat.eqb_neq in E3. lia.
Qed.

Lemma inflate_quad_length points expand h w :
  List.length (_inflate_quad points expand h w) = List.length points.
Proof.
  unfold _inflate_quad. destruct (Qle_bool expand 0); [reflexivity |].
  apply length_map.
Qed.

Lemma length4_shape {A} (l : list A) :
  List.length l = 4%nat -> exists a b c d, l = [a; b; c; d].
Proof.
  intros H. destruct l as [| a [| b [| c [| d [| ? ?]]]]]; try discriminate.
  now exists a, b, c, d.
Qed.

(** Once the image is read and at least 3 corner detections pass the
    threshold, [crop_cccd] never raises [ValueError] and never returns
    [None]: it always reaches [cv2.imwrite] on [output_path] (or the
    derived [*_cropped] path) with the final image, and returns that path
    if the write reports success, raises [IOError] if it reports failure,
    and propagates [cv2.error] if [imwrite] raises (e.g. for a path
    without an image extension).  The warp calls
    ([getPerspectiveTransform], [warpPerspective], [perspectiveTransform])
    are the environment's total functions here: an exception they raise
    on a degenerate quadrilateral is outside this statement. *)
Theorem crop_cccd_enough_corners_outcome (E : crop_env) image_path output_path
    conf_thres deskew expand aspect (image : img E) :
  yolo_available E = true ->
  path_exists E image_path = true ->
  imread E image_path = Some image ->
  (3 <= count_passing_corners (class_names E) (yolo_boxes E image) conf_thres)%nat ->
  let out := match output_path with Some p => p | None => cropped_name E image_path end in
  let res := crop_cccd E image_path output_path conf_thres deskew expand aspect in
  (exists warped, imwrite E out warped = Some true /\
                  res = (Returned (Some out), Some (out, warped))) \/
  (exists warped, imwrite E out warped = Some false /\ res = (Raised IOError, None)) \/
  (exists warped, imwrite E out warped = None /\ res = (Raised CvError, None)).
Proof.
  intros Hy Hp Hr Hc out res. unfold res, crop_cccd. rewrite Hy, Hp, Hr. cbn [negb].
  pose proof (detect_points_corner_count (class_names E) (yolo_boxes E image) conf_thres) as Hl.
  destruct (detect_points (class_names E) (yolo_boxes E image) conf_thres) as [em cs].
  cbn [snd] in Hl.
  assert (Hn : (List.length cs <? 3)%nat = false) by (apply Nat.ltb_ge; lia).
  rewrite Hn.
  assert (H4 : List.length (complete_fourth_corner cs) = 4%nat)
    by (apply complete_fourth_corner_length; lia).
  destruct (length4_shape _ H4) as (p0 & p1 & p2 & p3 & Ec). rewrite Ec.
  cbv beta iota zeta delta [_order_corners_robust].
  destruct (img_shape E image) as [h w].
  match goal with |- context [_inflate_quad ?o expand h w] =>
    assert (Hq : List.length (_inflate_quad o expand h w) = 4%nat)
      by (rewrite inflate_quad_length; reflexivity);
    destruct (length4_shape _ Hq) as (a & b & c & d & Eq); rewrite Eq
  end.
  destruct (_compute_warp E image a b c d) as [warped M].
  fold out.
  match goal with |- context [match imwrite E out ?wi with _ => _ end] =>
    destruct (imwrite E out wi) as [[|] |] eqn:Hw;
      [left | right; left | right; right]; exists wi; auto
  end.
Qed.

Lemma crop_cccd_enough_corners_outcome_witness :
  yolo_available toy_env3 = true /\
  path_exists toy_env3 "card.jpg" = true /\
  imread toy_env3 "card.jpg" = Some (50, 80)%Z /\
  (3 <= count_passing_corners (class_names toy_env3) (yolo_boxes toy_env3 (50, 80)%Z) (3 # 10))%nat /\
  let res := crop_cccd toy_env3 "card.jpg" None (3 # 10) true (6 # 100) (Some (1585 # 1000)) in
  (exists warped, imwrite toy_env3 "card.jpg_cropped" warped = Some true /\
                  res = (Returned (Some "card.jpg_cropped"), Some ("card.jpg_cropped", warped))) \/
  (exists warped, imwrite toy_env3 "card.jpg_cropped" warped = Some false /\
                  res = (Raised IOError, None)) \/
  (exists warped, imwrite toy_env3 "card.jpg_cropped" warped = None /\
                  res = (Raised CvError, None)).
Proof.
  split; [reflexivity |]. split; [reflexivity |]. split; [reflexivity |].
  assert (Hc : (3 <= count_passing_corners (class_names toy_env3)
                       (yolo_boxes toy_env3 (50, 80)%Z) (3 # 10))%nat) by (vm_compute; lia).
  split; [exact Hc |].
  exact (crop_cccd_enough_corners_outcome toy_env3 "card.jpg" None (3 # 10) true (6 # 100)
           (Some (1585 # 1000)) (50, 80)%Z eq_refl eq_refl eq_refl Hc).
Defined.

(** ** [run] when no detection clears the threshold *)

Definition empty_fields (st : ocr_state) : Prop :=
  Forall (fun e => snd e = []) (field_to_bboxes st) /\
  forall k, In k DESIRED_FIELDS ->
    dget (field_to_text st) k = Some "" /\ dget (field_to_confidence st) k = Some 0 /\
    dget (field_to_ocr_confidence st) k = Some 0.

Lemma Forall_dset_nil {V} (d : dict (list V)) k :
  Forall (fun e => snd e = []) d -> Forall (fun e => snd e = []) (dset d k []).
Proof.
  induction d as [| [k0 v0] r IH]; simpl; intros H.
  - now constructor.
  - inversion H as [| ? ? H0 Hr]; subst.
    destruct (String.eqb k0 k); constructor; auto.
Qed.

Lemma empty_fields_init : empty_fields init_state.
Proof.
  split.
  - simpl. repeat constructor.
  - intros k Hk. unfold init_state.
    cbn [field_to_text field_to_confidence field_to_ocr_confidence].
    rewrite !(dget_map_keys _ _ _ Hk). auto.
Qed.

Lemma collect_step_low_conf names width height thr st d :
  det_conf d <= thr -> empty_fields st ->
  empty_fields (collect_step names width height thr st d).
Proof.
  intros Hd [HF HK]. unfold collect_step.
  apply Qle_bool_iff in Hd. set (L := label_of names d).
  destruct (dget (field_to_bboxes st) L); rewrite Hd; [now split |].
  split; cbn [field_to_bboxes field_to_text field_to_confidence field_to_ocr_confidence].
  - now apply Forall_dset_nil.
  - intros k Hk. destruct (HK k Hk) as (H1 & H2 & H3). dget_simpl.
    destruct (String.eqb L k) eqn:E; [| auto].
    apply String.eqb_eq in E. subst k. unfold dget_or. rewrite H1, H2, H3. auto.
Qed.

Lemma collect_fold_low_conf names width height thr boxes st :
  (forall d, In d boxes -> det_conf d <= thr) -> empty_fields st ->
  empty_fields (fold_left (collect_step names width height thr) boxes st).
Proof.
  revert st. induction boxes as [| d boxes IH]; intros st Hb Hs; simpl; [exact Hs |].
  apply IH; [intros d' Hd'; apply Hb; now right |].
  apply collect_step_low_conf; [apply Hb; now left | exact Hs].
Qed.

Lemma merge_fold_all_empty r entries st :
  Forall (fun e => snd e = []) entries ->
  fold_left (merge_step r) entries (Some st) = Some st.
Proof.
  induction entries as [| [k its] entries IH]; intros H; simpl; [reflexivity |].
  inversion H as [| ? ? H0 Hr]; subst. cbn [snd] in H0. subst its. simpl. auto.
Qed.

(** If no detection has a confidence above [ocr_conf_threshold] (in
    particular if there are no detections at all), [run] still produces
    a payload: every schema field has the empty text, and detection and
    recognition confidences [round(0, 3)]; the recognizer is never
    consulted. *)
Theorem run_no_box_above_threshold names boxes width height thr r :
  (forall d, In d boxes -> det_conf d <= thr) ->
  run names boxes width height thr r =
  Some (Payload (map (fun k => (k, "")) DESIRED_FIELDS)
                (map (fun k => (k, round3 0)) DESIRED_FIELDS)
                (map (fun k => (k, round3 0)) DESIRED_FIELDS)).
Proof.
  intros Hb. unfold run, run_state.
  pose proof (collect_fold_low_conf names width height thr boxes init_state Hb
                empty_fields_init) as [HF HK].
  rewrite (merge_fold_all_empty r _ _ HF). cbn [option_map]. unfold make_payload.
  f_equal. f_equal; apply map_ext_in; intros k Hk; destruct (HK k Hk) as (H1 & H2 & H3);
    unfold dget_or; [rewrite H1 | rewrite H2 | rewrite H3]; reflexivity.
Qed.

Lemma run_no_box_above_threshold_witness :
  (forall d, In d [Detection (1 # 10) (QBox 0 0 4 4) 0; Detection (3 # 10) (QBox 9 9 20 20) 7] ->
             det_conf d <= 3 # 10) /\
  run (class_names toy_env) [Detection (1 # 10) (QBox 0 0 4 4) 0; Detection (3 # 10) (QBox 9 9 20 20) 7]
      80 50 (3 # 10) (fun _ => PredPlain (Some "X")) =
  Some (Payload (map (fun k => (k, "")) DESIRED_FIELDS)
                (map (fun k => (k, round3 0)) DESIRED_FIELDS)
                (map (fun k => (k, round3 0)) DESIRED_FIELDS)).
Proof.
  assert (Hb : forall d, In d [Detection (1 # 10) (QBox 0 0 4 4) 0;
                               Detection (3 # 10) (QBox 9 9 20 20) 7] -> det_conf d <= 3 # 10).
  { intros d [<- | [<- | []]]; unfold Qle; simpl; lia. }
  split; [exact Hb |].
  exact (run_no_box_above_threshold (class_names toy_env) _ 80 50 (3 # 10)
           (fun _ => PredPlain (Some "X")) Hb).
Defined.

(** ** Single-line fields keep the most confident box *)

Definition passes_for (names : Z -> option string) (thr : Q) (L : string) (d : detection) : bool :=
  String.eqb (label_of names d) L && negb (Qle_bool (det_conf d) thr).

Lemma collect_step_single names width height thr st d L items :
  mem_str L MULTILINE_FIELDS = false ->
  dget (field_to_bboxes st) L = Some items ->
  let repl := passes_for names thr L d &&
              match items with [] => true | (_, c0) :: _ => negb (Qle_bool (det_conf d) c0) end in
  let st' := collect_step names width height thr st d in
  dget (field_to_bboxes st') L =
    (if repl then Some [(pad_bbox (det_xyxy d) width height, det_conf d)] else Some items) /\
  dget (field_to_text st') L = dget (field_to_text st) L /\
  dget (field_to_confidence st') L =
    (if repl then Some (det_conf d) else dget (field_to_confidence st) L) /\
  dget (field_to_ocr_confidence st') L = dget (field_to_ocr_confidence st) L.
Proof.
  intros HL Hit repl st'. unfold st', repl, passes_for, collect_step.
  set (l := label_of names d).
  set (st1 := match dget (field_to_bboxes st) l with
              | Some _ => st
              | None => OcrState (dset (field_to_bboxes st) l [])
                          (setdefault (field_to_text st) l "")
                          (setdefault (field_to_confidence st) l 0)
                          (setdefault (field_to_ocr_confidence st) l 0)
              end).
  assert (H1 : dget (field_to_bboxes st1) L = Some items /\
               dget (field_to_text st1) L = dget (field_to_text st) L /\
               dget (field_to_confidence st1) L = dget (field_to_confidence st) L /\
               dget (field_to_ocr_confidence st1) L = dget (field_to_ocr_confidence st) L).
  { unfold st1. destruct (dget (field_to_bboxes st) l) eqn:El; [auto |].
    simpl. dget_simpl. destruct (String.eqb l L) eqn:E.
    - apply String.eqb_eq in E. subst. congruence.
    - auto. }
  destruct H1 as [B1 [T1 [C1 O1]]].
  destruct (Qle_bool (det_conf d) thr) eqn:Ec.
  - cbn [negb]. rewrite andb_false_r. cbn [andb]. auto.
  - cbn [negb]. rewrite andb_true_r.
    destruct (String.eqb l L) eqn:ElL.
    + apply String.eqb_eq in ElL as ElL'. rewrite ElL', HL. cbn [andb].
      unfold dget_or. rewrite B1.
      destruct (match items with
                | [] => true
                | (_, c0) :: _ => negb (Qle_bool (det_conf d) c0)
                end);
        cbn [field_to_bboxes field_to_text field_to_confidence field_to_ocr_confidence];
        dget_simpl; rewrite ?String.eqb_refl; auto.
    + cbn [andb].
      destruct (mem_str l MULTILINE_FIELDS);
        [| destruct (match dget_or (field_to_bboxes st1) l [] with
                     | [] => true
                     | (_, c0) :: _ => negb (Qle_bool (det_conf d) c0)
                     end)];
        cbn [field_to_bboxes field_to_text field_to_confidence field_to_ocr_confidence];
        dget_simpl; rewrite ?ElL; auto.
Qed.

Lemma collect_fold_single names width height thr boxes st L c :
  mem_str L MULTILINE_FIELDS = false ->
  dget (field_to_bboxes st) L = Some [] ->
  dget (field_to_confidence st) L = Some c ->
  let st' := fold_left (collect_step names width height thr) boxes st in
  let passing := filter (passes_for names thr L) boxes in
  dget (field_to_text st') L = dget (field_to_text st) L /\
  dget (field_to_ocr_confidence st') L = dget (field_to_ocr_confidence st) L /\
  match passing with
  | [] => dget (field_to_bboxes st') L = Some [] /\ dget (field_to_confidence st') L = Some c
  | _ :: _ =>
      exists pre d post, passing = (pre ++ d :: post)%list /\
        (forall d', In d' pre -> det_conf d' < det_conf d) /\
        (forall d', In d' post -> det_conf d' <= det_conf d) /\
        dget (field_to_bboxes st') L = Some [(pad_bbox (det_xyxy d) width height, det_conf d)] /\
        dget (field_to_confidence st') L = Some (det_conf d)
  end.
Proof.
  intros HL B0 C0. induction boxes as [| x boxes IH] using rev_ind; cbn zeta in *.
  - simpl. auto.
  - rewrite fold_left_app, filter_app. cbn [fold_left filter].
    set (st0 := fold_left (collect_step names width height thr) boxes st) in *.
    destruct IH as [T0 [O0 IH]].
    destruct (filter (passes_for names thr L) boxes) as [| p ps] eqn:Ep.
    + destruct IH as [B1 C1].
      destruct (collect_step_single names width height thr st0 x L [] HL B1)
        as [B2 [T2 [C2 O2]]].
      rewrite T2, O2, T0, O0. split; [reflexivity |]. split; [reflexivity |].
      rewrite B2, C2. cbn [app].
      destruct (passes_for names thr L x) eqn:Hx; cbn [andb].
      * exists [], x, []. split; [reflexivity |]. split; [intros ? [] |].
        split; [intros ? [] | auto].
      * auto.
    + destruct IH as (pre & d & post & Eq & Hpre & Hpost & B1 & C1).
      destruct (collect_step_single names width height thr st0 x L _ HL B1)
        as [B2 [T2 [C2 O2]]].
      rewrite T2, O2, T0, O0. split; [reflexivity |]. split; [reflexivity |].
      rewrite B2, C2. rewrite Eq.
      destruct (passes_for names thr L x) eqn:Hx; cbn [andb]; [| rewrite app_nil_r].
      * destruct (Qle_bool (det_conf x) (det_conf d)) eqn:Hxd; cbn [negb].
        -- apply Qle_bool_iff in Hxd.
           rewrite <- app_assoc. cbn [app].
           destruct (pre ++ d :: post ++ [x])%list eqn:Enil;
             [destruct pre; discriminate |].
           exists pre, d, (post ++ [x])%list. split; [exact (eq_sym Enil) |].
           split; [exact Hpre |]. split; [| auto].
           intros d' Hd'. apply in_app_or in Hd' as [Hd' | [<- | []]]; auto.
        -- assert (Hlt : det_conf d < det_conf x).
           { apply Qnot_le_lt. intros H. apply Qle_bool_iff in H. congruence. }
           destruct ((pre ++ d :: post) ++ [x])%list eqn:Enil;
             [destruct pre; discriminate |].
           exists (pre ++ d :: post)%list, x, []. split; [exact (eq_sym Enil) |].
           split; [| split; [intros ? [] | auto]].
           intros d' Hd'. apply in_app_or in Hd' as [Hd' | [<- | Hd']].
           ++ eapply Qlt_trans; [apply Hpre; exact Hd' | exact Hlt].
           ++ exact Hlt.
           ++ eapply Qle_lt_trans; [apply Hpost; exact Hd' | exact Hlt].
      * destruct (pre ++ d :: post)%list eqn:Enil; [destruct pre; discriminate |].
        exists pre, d, post. split; [exact (eq_sym Enil) | auto].
Qed.

Lemma sort_by_key_single {A} (key : A -> Z) (x : A) : sort_by_key key [x] = [x].
Proof. reflexivity. Qed.

(** For a single-line schema field [L] (every schema field except
    [name], [origin_place] and [current_place]): if no box labelled [L]
    has a confidence above the threshold, [run] reports the empty text
    and confidences [round(0, 3)] for it.  Otherwise it uses exactly one
    box, the first of highest confidence among them: [L]'s text is that
    box's recognized text, stripped; its detection confidence is the
    box's score, even when the recognizer returned nothing; its
    recognition confidence is the recognizer's, or 0 when the text is
    empty. *)
Theorem run_single_line_field names boxes width height thr r p L :
  In L DESIRED_FIELDS -> mem_str L MULTILINE_FIELDS = false ->
  run names boxes width height thr r = Some p ->
  let passing := filter (passes_for names thr L) boxes in
  (passing = [] ->
     dget (data p) L = Some "" /\ dget (yolo_confidence p) L = Some (round3 0) /\
     dget (ocr_confidence p) L = Some (round3 0)) /\
  (passing <> [] ->
     exists pre d post, passing = (pre ++ d :: post)%list /\
       (forall d', In d' pre -> det_conf d' < det_conf d) /\
       (forall d', In d' post -> det_conf d' <= det_conf d) /\
       let it := (pad_bbox (det_xyxy d) width height, det_conf d) in
       dget (data p) L = Some (strip (text_of r it)) /\
       dget (yolo_confidence p) L = Some (round3 (det_conf d)) /\
       dget (ocr_confidence p) L = Some (round3 (if kept r it then ocr_of r it else 0))).
Proof.
  intros HD HL Hrun passing. unfold run, run_state in Hrun.
  assert (B0 : dget (field_to_bboxes init_state) L = Some [])
    by (unfold init_state; cbn [field_to_bboxes]; now rewrite dget_map_keys).
  assert (T0 : dget (field_to_text init_state) L = Some "")
    by (unfold init_state; cbn [field_to_text]; now rewrite dget_map_keys).
  assert (C0 : dget (field_to_confidence init_state) L = Some 0)
    by (unfold init_state; cbn [field_to_confidence]; now rewrite dget_map_keys).
  assert (O0 : dget (field_to_ocr_confidence init_state) L = Some 0)
    by (unfold init_state; cbn [field_to_ocr_confidence]; now rewrite dget_map_keys).
  pose proof (collect_fold_single names width height thr boxes init_state L 0 HL B0 C0)
    as [T1 [O1 Hm]].
  set (st0 := fold_left (collect_step names width height thr) boxes init_state) in *.
  fold passing in Hm.
  destruct (fold_left (merge_step r) (field_to_bboxes st0) (Some st0)) as [st' |] eqn:Hf;
    [| discriminate].
  cbn [option_map] in Hrun. injection Hrun as <-.
  unfold make_payload; cbn [data yolo_confidence ocr_confidence].
  rewrite !dget_map_keys by exact HD. unfold dget_or.
  pose proof (collect_fold_NoDup names width height thr boxes init_state init_NoDup) as Hnd.
  fold st0 in Hnd.
  destruct passing as [| p0 ps].
  - destruct Hm as [B1 C1].
    destruct (merge_fold_key r _ st0 st' L _ Hnd (dget_In _ _ _ B1) Hf)
      as [[[texts ycs] ocs] [_ [Te [Ce Oe]]]].
    rewrite Te, Ce, Oe, T1, C1, O1, T0, O0.
    split; [auto | intros []; reflexivity].
  - split; [discriminate | intros _].
    destruct Hm as (pre & d & post & Eq & Hpre & Hpost & B1 & C1).
    exists pre, d, post. split; [exact Eq |]. split; [exact Hpre |]. split; [exact Hpost |].
    set (it := (pad_bbox (det_xyxy d) width height, det_conf d)).
    destruct (merge_fold_key r _ st0 st' L _ Hnd (dget_In _ _ _ B1) Hf)
      as [[[texts ycs] ocs] [Hr [Te [Ce Oe]]]].
    fold it in Hr, Te, Ce, Oe.
    destruct (recognize_boxes_spec r [it] texts ycs ocs Hr) as [Ht [Hy Ho]].
    rewrite sort_by_key_single in Ht, Hy, Ho. cbn [filter] in Ht, Hy, Ho.
    rewrite Te, Ce, Oe, C1, O1, O0, HL.
    destruct (kept r it) eqn:Hk; subst texts ycs ocs; cbn [map join_space hd].
    + auto.
    + split; [| auto]. do 2 f_equal.
      unfold kept in Hk. unfold text_of.
      destruct (fst (predict_with_confidence (r (fst it)))) as [[| ? ?] |];
        [reflexivity | discriminate | reflexivity].
Qed.

Lemma run_single_line_field_witness :
  In "id" DESIRED_FIELDS /\ mem_str "id" MULTILINE_FIELDS = false /\
  exists p,
  run (fun c => if (c =? 0)%Z then Some "id" else None)
      [Detection (6 # 10) (QBox 10 10 60 20) 0; Detection (9 # 10) (QBox 12 11 62 21) 0;
       Detection (9 # 10) (QBox 0 0 5 5) 0]
      200 100 (4 # 10) (fun _ => PredTuple (Some "012345") (95 # 100)) = Some p /\
  let passing := filter (passes_for (fun c => if (c =? 0)%Z then Some "id" else None) (4 # 10) "id")
      [Detection (6 # 10) (QBox 10 10 60 20) 0; Detection (9 # 10) (QBox 12 11 62 21) 0;
       Detection (9 # 10) (QBox 0 0 5 5) 0] in
  (passing = [] ->
     dget (data p) "id" = Some "" /\ dget (yolo_confidence p) "id" = Some (round3 0) /\
     dget (ocr_confidence p) "id" = Some (round3 0)) /\
  (passing <> [] ->
     exists pre d post, passing = (pre ++ d :: post)%list /\
       (forall d', In d' pre -> det_conf d' < det_conf d) /\
       (forall d', In d' post -> det_conf d' <= det_conf d) /\
       let it := (pad_bbox (det_xyxy d) 200 100, det_conf d) in
       dget (data p) "id" = Some (strip (text_of (fun _ => PredTuple (Some "012345") (95 # 100)) it)) /\
       dget (yolo_confidence p) "id" = Some (round3 (det_conf d)) /\
       dget (ocr_confidence p) "id" =
         Some (round3 (if kept (fun _ => PredTuple (Some "012345") (95 # 100)) it
                       then ocr_of (fun _ => PredTuple (Some "012345") (95 # 100)) it else 0))).
Proof.
  assert (HD : In "id" DESIRED_FIELDS) by (now left).
  assert (HL : mem_str "id" MULTILINE_FIELDS = false) by reflexivity.
  split; [exact HD |]. split; [exact HL |].
  set (names := fun c => if (c =? 0)%Z then Some "id" else None).
  set (boxes := [Detection (6 # 10) (QBox 10 10 60 20) 0; Detection (9 # 10) (QBox 12 11 62 21) 0;
                 Detection (9 # 10) (QBox 0 0 5 5) 0]).
  set (r := fun _ : zbox => PredTuple (Some "012345") (95 # 100)).
  destruct (run names boxes 200 100 (4 # 10) r) as [p |] eqn:Hrun;
    [| vm_compute in Hrun; discriminate].
  exists p. split; [reflexivity |].
  exact (run_single_line_field names boxes 200 100 (4 # 10) r p "id" HD HL Hrun).
Defined.

